(** * Now-playing aggregation: the Deezer monitor and the platform adapters

    A shallow embedding of [src/src/index.ts]: the [DeezerMusicMonitor] class
    (SMTC session normalisation, change detection, playback status handling,
    lifecycle) and the server-side adapters that parse the output of
    [playerctl] and of the browser tab title, together with the Windows
    fallback chain.

    Conventions.
    - A JavaScript string is a [string]: the sequence of its code units, for
      code units below 256.  [!==] on strings is equality of these sequences.
    - A property that may be missing ([undefined]) is an [option].
    - The class instance is a record of its private fields plus the trace of
      what it did to the outside world (console lines, calls into the
      [SMTCMonitor] object), most recent first.
    - What the outside world answers (the [sessions] getter of [SMTCMonitor],
      whether [_initialize] throws, what [exec] hands to its callback) is an
      argument of the operation that asks for it. *)

From Stdlib Require Import String Ascii List ZArith Bool Lia.
Import ListNotations.

Local Open Scope string_scope.
Local Open Scope list_scope.

(* ================================================================== *)
(** ** JavaScript string primitives used by the source *)

Module JS.

(** Truthiness of a string value: only the empty string is falsy. *)
Definition nonEmpty (s : string) : bool :=
  match s with
  | EmptyString => false
  | String _ _ => true
  end.

(** Truthiness of a possibly missing string property. *)
Definition truthy (o : option string) : bool :=
  match o with
  | Some s => nonEmpty s
  | None => false
  end.

(** [x || ''] for a possibly missing string property [x]. *)
Definition orEmpty (o : option string) : string :=
  match o with
  | Some s => s
  | None => ""
  end.

(** WhiteSpace and LineTerminator code units below 256: TAB, LF, VT, FF,
    CR, SP and NBSP. *)
Definition isWhiteSpace (c : ascii) : bool :=
  let n := nat_of_ascii c in
  ((9 <=? n) && (n <=? 13) || (n =? 32) || (n =? 160))%nat.

Fixpoint trimStart (s : string) : string :=
  match s with
  | EmptyString => EmptyString
  | String c rest => if isWhiteSpace c then trimStart rest else s
  end.

Fixpoint trimEnd (s : string) : string :=
  match s with
  | EmptyString => EmptyString
  | String c rest =>
      let rest' := trimEnd rest in
      if isWhiteSpace c && negb (nonEmpty rest') then EmptyString
      else String c rest'
  end.

(** [String.prototype.trim]. *)
Definition trim (s : string) : string := trimEnd (trimStart s).

(** The scan of [String.prototype.split] with a non-empty string separator:
    at each position, a match of [sep] closes the current part and the scan
    resumes after the match; otherwise the position advances by one.
    [skip] is the number of code units of a match still to be passed over.
    The result is the part under construction and the parts after it. *)
Fixpoint splitFrom (sep : string) (skip : nat) (s : string)
  : string * list string :=
  match s with
  | EmptyString => (EmptyString, [])
  | String c rest =>
      match skip with
      | S k => splitFrom sep k rest
      | O =>
          if prefix sep s then
            let '(p, ps) := splitFrom sep (pred (String.length sep)) rest in
            (EmptyString, p :: ps)
          else
            let '(p, ps) := splitFrom sep 0 rest in
            (String c p, ps)
      end
  end.

(** [s.split(sep)] for a non-empty [sep]: every occurrence of [sep],
    scanning left to right, is a cut. *)
Definition split (sep s : string) : list string :=
  let '(p, ps) := splitFrom sep 0 s in p :: ps.

(** [s.replace(/-$/, "")]: without the [m] flag, [$] matches at the end of
    the input only, so at most the last code unit is removed. *)
Fixpoint replaceTrailingHyphen (s : string) : string :=
  match s with
  | EmptyString => EmptyString
  | String c rest =>
      match rest with
      | EmptyString => if Ascii.eqb c "-" then EmptyString else s
      | String _ _ => String c (replaceTrailingHyphen rest)
      end
  end.

(** [s.slice(n)]: the string without its first [n] code units. *)
Fixpoint slice (n : nat) (s : string) : string :=
  match n, s with
  | O, _ => s
  | S k, String _ rest => slice k rest
  | S _, EmptyString => EmptyString
  end.

(** Array element access [a[i]], [undefined] out of range. *)
Definition at_ {A} (a : list A) (i : nat) : option A := nth_error a i.

End JS.

(* ================================================================== *)
(** ** Data model *)

(** [interface MusicInfo { artist: string; title: string; album?: string }] *)
Record MusicInfo := mkMusicInfo {
  artist : string;
  title : string;
  album : option string
}.

(** The [media] object of a session.  The event path reads [album], the
    query path reads [albumTitle]; both properties are kept. *)
Module Media.
Record t := mk {
  artist : option string;
  title : option string;
  album : option string;
  albumTitle : option string
}.
End Media.

Module Timeline.
Record t := mk { duration : Z; position : Z }.
End Timeline.

Module Playback.
Record t := mk { playbackStatus : Z }.
End Playback.

(** A session snapshot, with the properties the source probes. *)
Module Session.
Record t := mk {
  media : option Media.t;
  artist : option string;
  title : option string;
  album : option string;
  timeline : option Timeline.t;
  playback : option Playback.t
}.
End Session.

(** The first argument of [logMusicChange]. *)
Inductive Action :=
| NovaMusicaDetectada
| MusicaParou
| MusicaTocando
| MusicaPausada.

(** Console lines of the class, without their time stamp. *)
Inductive Line :=
| SessaoMudou (session : Session.t)
| SessaoAtual (session : Session.t)
| MusicaSemDetalhes (duration position : Z) (status : option Z)
| MusicChange (action : Action) (shown : option MusicInfo)
| StatusDesconhecido (status : Z)
| JaInicializado
| Iniciando
| ErroAoInicializar
| Parando.

(** What the instance does to the outside world. *)
Inductive Effect :=
| Console (l : Line)
| Initialize (ok : bool)   (* [(this.monitor as any)._initialize()]; [ok = false]: it threw *)
| Destroy.                 (* [this.monitor.destroy()] *)

(** [class DeezerMusicMonitor]: [currentMusic], [isInitialized], and the
    effects so far (most recent first). *)
Record DeezerMusicMonitor := mkMonitor {
  currentMusic : option MusicInfo;
  isInitialized : bool;
  trace : list Effect
}.

(** The instance right after [new DeezerMusicMonitor()]. *)
Definition newMonitor : DeezerMusicMonitor :=
  {| currentMusic := None; isInitialized := false; trace := [] |}.

Definition setCurrentMusic (m : option MusicInfo) (st : DeezerMusicMonitor)
  : DeezerMusicMonitor :=
  {| currentMusic := m; isInitialized := isInitialized st; trace := trace st |}.

Definition setInitialized (b : bool) (st : DeezerMusicMonitor)
  : DeezerMusicMonitor :=
  {| currentMusic := currentMusic st; isInitialized := b; trace := trace st |}.

Definition emit (e : Effect) (st : DeezerMusicMonitor) : DeezerMusicMonitor :=
  {| currentMusic := currentMusic st;
     isInitialized := isInitialized st;
     trace := e :: trace st |}.

Definition console (l : Line) : DeezerMusicMonitor -> DeezerMusicMonitor :=
  emit (Console l).

(** [a !== b] on two possibly missing strings. *)
Definition strictNeq (a b : option string) : bool :=
  match a, b with
  | Some x, Some y => negb (String.eqb x y)
  | None, None => false
  | _, _ => true
  end.

(* ================================================================== *)
(** ** The methods of [DeezerMusicMonitor] *)

(** [hasMusicChanged], as a function of the stored value. *)
Definition hasChanged (previous : option MusicInfo) (newMusic : MusicInfo)
  : bool :=
  match previous with
  | None => true
  | Some cur =>
      negb (String.eqb (artist cur) (artist newMusic))
      || negb (String.eqb (title cur) (title newMusic))
      || strictNeq (album cur) (album newMusic)
  end.

Definition hasMusicChanged (newMusic : MusicInfo) (st : DeezerMusicMonitor)
  : bool :=
  hasChanged (currentMusic st) newMusic.

(** [logMusicChange]: the track is printed only when it is present with a
    non-empty artist and title. *)
Definition logMusicChange (action : Action) (musicInfo : option MusicInfo)
  (st : DeezerMusicMonitor) : DeezerMusicMonitor :=
  match musicInfo with
  | Some mi =>
      if JS.nonEmpty (artist mi) && JS.nonEmpty (title mi)
      then console (MusicChange action (Some mi)) st
      else console (MusicChange action None) st
  | None => console (MusicChange action None) st
  end.

(** [handlePlaybackStatus]. *)
Definition handlePlaybackStatus (status : Z) (st : DeezerMusicMonitor)
  : DeezerMusicMonitor :=
  match status with
  | 0%Z => setCurrentMusic None (logMusicChange MusicaParou None st)
  | 1%Z => logMusicChange MusicaTocando (currentMusic st) st
  | 2%Z => logMusicChange MusicaPausada (currentMusic st) st
  | _ => console (StatusDesconhecido status) st
  end.

(** The record built in the first branch of [extractMusicInfo]. *)
Definition fromMedia (media : Media.t) : MusicInfo :=
  {| artist := JS.orEmpty (Media.artist media);
     title := JS.orEmpty (Media.title media);
     album := Some (JS.orEmpty (Media.album media)) |}.

(** The record built in the second branch of [extractMusicInfo]. *)
Definition fromDirect (session : Session.t) : MusicInfo :=
  {| artist := JS.orEmpty (Session.artist session);
     title := JS.orEmpty (Session.title session);
     album := Some (JS.orEmpty (Session.album session)) |}.

(** The record built in [getCurrentMusic]. *)
Definition fromMediaAlbumTitle (media : Media.t) : MusicInfo :=
  {| artist := JS.orEmpty (Media.artist media);
     title := JS.orEmpty (Media.title media);
     album := Some (JS.orEmpty (Media.albumTitle media)) |}.

(** The [if / else if / else if] chain of [extractMusicInfo]: the value of
    the local [musicInfo] and the state after the branch taken. *)
Definition probe (session : Session.t) (st : DeezerMusicMonitor)
  : option MusicInfo * DeezerMusicMonitor :=
  match Session.media session with
  | Some media => (Some (fromMedia media), st)
  | None =>
      if JS.truthy (Session.artist session) || JS.truthy (Session.title session)
      then (Some (fromDirect session), st)
      else
        match Session.timeline session with
        | Some tl =>
            if (0 <? Timeline.duration tl)%Z then
              let st1 :=
                console
                  (MusicaSemDetalhes (Timeline.duration tl) (Timeline.position tl)
                     (option_map Playback.playbackStatus (Session.playback session)))
                  st in
              match Session.playback session with
              | Some pb => (None, handlePlaybackStatus (Playback.playbackStatus pb) st1)
              | None => (None, st1)
              end
            else (None, st)
        | None => (None, st)
        end
  end.

(** [extractMusicInfo]. *)
Definition extractMusicInfo (session : Session.t) (st : DeezerMusicMonitor)
  : DeezerMusicMonitor :=
  let '(musicInfo, st1) := probe session st in
  match musicInfo with
  | Some mi =>
      if hasMusicChanged mi st1
      then logMusicChange NovaMusicaDetectada (Some mi) (setCurrentMusic (Some mi) st1)
      else st1
  | None => st1
  end.

(** [checkCurrentMusic]; [sessions] is what [this.monitor.sessions] returns,
    an array of session objects: the guard [sessions && sessions.length > 0]
    is the non-empty case, and [if (currentSession)] holds of any object. *)
Definition checkCurrentMusic (sessions : list Session.t)
  (st : DeezerMusicMonitor) : DeezerMusicMonitor :=
  match sessions with
  | currentSession :: _ =>
      extractMusicInfo currentSession (console (SessaoAtual currentSession) st)
  | [] => st
  end.

(** The listener registered by [setupEventListeners] for
    ['current-session-changed']. *)
Definition onCurrentSessionChanged (session : Session.t)
  (sessions : list Session.t) (st : DeezerMusicMonitor) : DeezerMusicMonitor :=
  checkCurrentMusic sessions (console (SessaoMudou session) st).

(** [start]; [initOk] tells whether [_initialize] returns normally. *)
Definition start (initOk : bool) (st : DeezerMusicMonitor)
  : DeezerMusicMonitor :=
  if isInitialized st then console JaInicializado st
  else
    let st1 := console Iniciando st in
    if initOk then setInitialized true (emit (Initialize true) st1)
    else console ErroAoInicializar (emit (Initialize false) st1).

(** [stop]. *)
Definition stop (st : DeezerMusicMonitor) : DeezerMusicMonitor :=
  let st1 := console Parando st in
  if isInitialized st1 then setInitialized false (emit Destroy st1)
  else st1.

(** [getCurrentMusic]: the returned value and the state afterwards. *)
Definition getCurrentMusic (initOk : bool) (sessions : list Session.t)
  (st : DeezerMusicMonitor) : option MusicInfo * DeezerMusicMonitor :=
  let st1 := if negb (isInitialized st) then start initOk st else st in
  let st2 :=
    match sessions with
    | currentSession :: _ =>
        match Session.media currentSession with
        | Some media =>
            let musicInfo := fromMediaAlbumTitle media in
            if hasMusicChanged musicInfo st1
            then setCurrentMusic (Some musicInfo) st1
            else st1
        | None => st1
        end
    | [] => st1
    end in
  (currentMusic st2, st2).

(** [getCurrentSession]. *)
Definition getCurrentSession (initOk : bool) (sessions : list Session.t)
  (st : DeezerMusicMonitor) : option Session.t * DeezerMusicMonitor :=
  let st1 := if negb (isInitialized st) then start initOk st else st in
  match sessions with
  | s :: _ => (Some s, st1)
  | [] => (None, st1)
  end.

(** [isMusicPlaying]. *)
Definition isMusicPlaying (initOk : bool) (sessions : list Session.t)
  (st : DeezerMusicMonitor) : bool * DeezerMusicMonitor :=
  let '(session, st1) := getCurrentSession initOk sessions st in
  match session with
  | None => (false, st1)
  | Some s =>
      let byMedia :=
        match Session.media s with
        | Some m => JS.truthy (Media.title m) && JS.truthy (Media.artist m)
        | None => false
        end in
      let byTimeline :=
        match Session.timeline s with
        | Some tl => (0 <? Timeline.duration tl)%Z
        | None => false
        end in
      (byMedia || byTimeline, st1)
  end.

(* ================================================================== *)
(** ** Runs of the monitor *)

(** What can happen to an instance: the platform fires
    ['current-session-changed'], or a caller invokes a public method. *)
Inductive Op :=
| SessionChanged (session : Session.t) (sessions : list Session.t)
| CallStart (initOk : bool)
| CallStop
| CallGetCurrentMusic (initOk : bool) (sessions : list Session.t)
| CallGetCurrentSession (initOk : bool) (sessions : list Session.t)
| CallIsMusicPlaying (initOk : bool) (sessions : list Session.t).

Definition step (o : Op) (st : DeezerMusicMonitor) : DeezerMusicMonitor :=
  match o with
  | SessionChanged session sessions => onCurrentSessionChanged session sessions st
  | CallStart initOk => start initOk st
  | CallStop => stop st
  | CallGetCurrentMusic initOk sessions => snd (getCurrentMusic initOk sessions st)
  | CallGetCurrentSession initOk sessions => snd (getCurrentSession initOk sessions st)
  | CallIsMusicPlaying initOk sessions => snd (isMusicPlaying initOk sessions st)
  end.

(** The operations are applied first to last. *)
Definition run (ops : list Op) (st : DeezerMusicMonitor) : DeezerMusicMonitor :=
  fold_left (fun s o => step o s) ops st.

Definition reachable (st : DeezerMusicMonitor) : Prop :=
  exists ops, st = run ops newMonitor.

(** [PlaybackStatus] of the specification. *)
Inductive PlaybackStatus :=
| Stopped
| Playing
| Paused
| Unknown (code : Z).

(** The class keeps no playback field.  The status last processed by
    [handlePlaybackStatus] is read off the console: each of its four branches
    prints a line no other method prints. *)
Fixpoint lastStatus (tr : list Effect) : option PlaybackStatus :=
  match tr with
  | [] => None
  | Console (MusicChange MusicaParou _) :: _ => Some Stopped
  | Console (MusicChange MusicaTocando _) :: _ => Some Playing
  | Console (MusicChange MusicaPausada _) :: _ => Some Paused
  | Console (StatusDesconhecido code) :: _ => Some (Unknown code)
  | _ :: rest => lastStatus rest
  end.

Definition playbackState (st : DeezerMusicMonitor) : option PlaybackStatus :=
  lastStatus (trace st).

(** Number of calls of [_initialize] recorded in a trace. *)
Definition initializeCalls (tr : list Effect) : nat :=
  List.length (filter (fun e => match e with Initialize _ => true | _ => false end) tr).

(** Number of calls of [destroy] recorded in a trace. *)
Definition destroyCalls (tr : list Effect) : nat :=
  List.length (filter (fun e => match e with Destroy => true | _ => false end) tr).

(** Number of calls of [_initialize] that returned normally: the native
    subscriptions made. *)
Definition subscriptions (tr : list Effect) : nat :=
  List.length (filter (fun e => match e with Initialize true => true | _ => false end) tr).

(** What the lifecycle methods act on: subscriptions made, subscriptions
    destroyed, calls of [_initialize], and the [isInitialized] flag. *)
Definition lifecycle (st : DeezerMusicMonitor) : nat * nat * nat * bool :=
  (subscriptions (trace st), destroyCalls (trace st),
   initializeCalls (trace st), isInitialized st).

(** Every subscription made is either destroyed or the one in force. *)
Definition balanced (st : DeezerMusicMonitor) : Prop :=
  let '(subs, dest, _, init) := lifecycle st in
  subs = dest + (if init then 1 else 0).

(** The stored record, when there is one, carries an album string. *)
Definition albumPresent (st : DeezerMusicMonitor) : Prop :=
  forall m, currentMusic st = Some m -> album m <> None.

(** The status codes of the transport field. *)
Definition statusOf (code : Z) : PlaybackStatus :=
  match code with
  | 0%Z => Stopped
  | 1%Z => Playing
  | 2%Z => Paused
  | _ => Unknown code
  end.

(** The guard under which [extractMusicInfo] reaches its call of
    [handlePlaybackStatus], and the status it passes: no media object, no
    direct artist or title, a timeline of positive duration, and a playback
    object. *)
Definition processedStatus (session : Session.t) : option Z :=
  match Session.media session with
  | Some _ => None
  | None =>
      if JS.truthy (Session.artist session) || JS.truthy (Session.title session)
      then None
      else
        match Session.timeline session with
        | Some tl =>
            if (0 <? Timeline.duration tl)%Z
            then option_map Playback.playbackStatus (Session.playback session)
            else None
        | None => None
        end
  end.

(** A poll of [getCurrentMusic] that finds no session, or a first session
    without a media object. *)
Definition findsNoMedia (sessions : list Session.t) : Prop :=
  sessions = [] \/ exists s rest, sessions = s :: rest /\ Session.media s = None.

(* ================================================================== *)
(** ** The server side adapters *)

(** Settlement of a promise. *)
Inductive Outcome (A : Type) :=
| Resolved (value : A)
| Rejected (reason : string).
Arguments Resolved {A} value.
Arguments Rejected {A} reason.

(** What [exec] hands to its callback: an error, or the standard output. *)
Inductive ExecResult :=
| ExecError
| ExecOk (stdout : string).

Definition anErrorOccurred : string := "An error occurred".
Definition unableToParse : string := "Unable to parse song information".

(** The destructuring [const [artist, title] = output.split(" - ")]. *)
Definition artistTitle (output : string) : option string * option string :=
  let parts := JS.split " - " output in
  (JS.at_ parts 0, JS.at_ parts 1).

(** [getSpotifyMusicWindows]: the settlement of the promise, given what
    [exec] delivers. *)
Definition getSpotifyMusicWindows (r : ExecResult) : Outcome (option MusicInfo) :=
  match r with
  | ExecError => Resolved None
  | ExecOk stdout =>
      let output := JS.trim stdout in
      if negb (JS.nonEmpty output) then Resolved None
      else
        let '(a, t) := artistTitle output in
        if JS.truthy a && JS.truthy t then
          Resolved (Some {| artist := JS.trim (JS.orEmpty a);
                            title := JS.trim (JS.orEmpty t);
                            album := None |})
        else Resolved None
  end.

(** [artist.split(",")[0]]. *)
Definition beforeComma (s : string) : string :=
  JS.orEmpty (JS.at_ (JS.split "," s) 0).

(** [getLinuxMusic]. *)
Definition getLinuxMusic (r : ExecResult) : Outcome (option MusicInfo) :=
  match r with
  | ExecError => Rejected anErrorOccurred
  | ExecOk stdout =>
      let output := JS.trim stdout in
      let '(a, t) := artistTitle output in
      if JS.truthy a && JS.truthy t then
        let cleanArtist := JS.trim (beforeComma (JS.orEmpty a)) in
        let cleanTitle := JS.trim (JS.replaceTrailingHyphen (JS.orEmpty t)) in
        Resolved (Some {| artist := cleanArtist; title := cleanTitle; album := None |})
      else Rejected unableToParse
  end.

(** [getMacOSMusic]. *)
Definition getMacOSMusic (r : ExecResult) : Outcome (option MusicInfo) :=
  match r with
  | ExecError => Rejected anErrorOccurred
  | ExecOk stdout =>
      let output := JS.trim stdout in
      let parts := JS.split " - " output in
      if (2 <=? List.length parts)%nat then
        let title := JS.trim (JS.orEmpty (JS.at_ parts 0)) in
        let artist := JS.trim (JS.orEmpty (JS.at_ parts 1)) in
        Resolved (Some {| artist := artist; title := title; album := None |})
      else Rejected unableToParse
  end.

(** External processes the server launches. *)
Inductive Command := Playerctl | Osascript.

(** The module state of the server that the fallback touches: the global
    [deezerMonitor], and the processes launched so far (most recent first). *)
Record Server := mkServer {
  deezerMonitor : option DeezerMusicMonitor;
  spawned : list Command
}.

(** What the platform answers during one request: whether
    [new DeezerMusicMonitor()] and [_initialize] return normally (the same
    answer for every call of [_initialize] within the request), the value of
    the [sessions] getter, and what [exec] delivers. *)
Record Platform := mkPlatform {
  constructOk : bool;
  initOk : bool;
  sessions : list Session.t;
  execResult : ExecResult
}.

(** [getDeezerMusic]: creates and starts the global monitor when there is
    none, then asks it; anything thrown becomes [null]. *)
Definition getDeezerMusic (env : Platform) (sv : Server)
  : Outcome (option MusicInfo) * Server :=
  match deezerMonitor sv with
  | Some m =>
      let '(music, m') := getCurrentMusic (initOk env) (sessions env) m in
      (Resolved music, {| deezerMonitor := Some m'; spawned := spawned sv |})
  | None =>
      if constructOk env then
        let m := start (initOk env) newMonitor in
        let '(music, m') := getCurrentMusic (initOk env) (sessions env) m in
        (Resolved music, {| deezerMonitor := Some m'; spawned := spawned sv |})
      else (Resolved None, sv)
  end.

Definition spawn (c : Command) (sv : Server) : Server :=
  {| deezerMonitor := deezerMonitor sv; spawned := c :: spawned sv |}.

(** [getWindowsMusic]. *)
Definition getWindowsMusic (env : Platform) (sv : Server)
  : Outcome (option MusicInfo) * Server :=
  let '(r1, sv1) := getDeezerMusic env sv in
  match r1 with
  | Rejected e => (Rejected e, sv1)
  | Resolved (Some musicInfo) => (Resolved (Some musicInfo), sv1)
  | Resolved None =>
      let sv2 := spawn Playerctl sv1 in
      match getSpotifyMusicWindows (execResult env) with
      | Rejected e => (Rejected e, sv2)
      | Resolved (Some musicInfo) => (Resolved (Some musicInfo), sv2)
      | Resolved None => (Resolved None, sv2)
      end
  end.

(* ================================================================== *)
(** ** The specification's wording, for comparison with the code *)

Module Spec.

(** "Split on the first literal separator": the text before the first
    occurrence of [sep] and the text after it, or nothing when [sep] does
    not occur. *)
Fixpoint cutFirst (sep s : string) : option (string * string) :=
  match s with
  | EmptyString => None
  | String c rest =>
      if prefix sep s then
        Some (EmptyString, JS.slice (String.length sep) s)
      else
        match cutFirst sep rest with
        | Some (a, b) => Some (String c a, b)
        | None => None
        end
  end.

(** The CLI parsing rule as worded: two non-empty parts around the first
    separator are artist and title; the artist is cut at a comma and one
    trailing hyphen is stripped from the title. *)
Definition cliParse (stdout : string) : option MusicInfo :=
  match cutFirst " - " (JS.trim stdout) with
  | Some (a, t) =>
      if JS.nonEmpty a && JS.nonEmpty t then
        Some {| artist := JS.trim (beforeComma a);
                title := JS.trim (JS.replaceTrailingHyphen t);
                album := None |}
      else None
  | None => None
  end.

(** The browser title rule as worded: title before the first separator,
    artist after it. *)
Definition browserParse (stdout : string) : option MusicInfo :=
  match cutFirst " - " (JS.trim stdout) with
  | Some (t, a) =>
      Some {| artist := JS.trim a; title := JS.trim t; album := None |}
  | None => None
  end.

(** "Absent album normalized to the empty string". *)
Definition normAlbum (m : MusicInfo) : string := JS.orEmpty (album m).

(** The change detector as worded. *)
Definition hasChanged (previous : option MusicInfo) (candidate : MusicInfo)
  : bool :=
  match previous with
  | None => true
  | Some p =>
      negb (String.eqb (artist p) (artist candidate))
      || negb (String.eqb (title p) (title candidate))
      || negb (String.eqb (normAlbum p) (normAlbum candidate))
  end.

(** The three outcomes of a CLI adapter as worded: blank output is the
    empty result; output that is not blank and has no two non-empty parts
    is a rejection; a failed command never settles like a blank output. *)
Definition distinguishesOutcomes
  (adapter : ExecResult -> Outcome (option MusicInfo)) : Prop :=
  (forall stdout, JS.trim stdout = "" -> adapter (ExecOk stdout) = Resolved None)
  /\ (forall stdout, JS.trim stdout <> "" -> cliParse stdout = None ->
        exists reason, adapter (ExecOk stdout) = Rejected reason)
  /\ (forall stdout, JS.trim stdout = "" -> adapter ExecError <> adapter (ExecOk stdout)).

End Spec.

(* ================================================================== *)
(** ** Sample snapshots *)

Definition noSession : Session.t :=
  Session.mk None None None None None None.

(** A snapshot with only a media object: artist, title and [albumTitle]. *)
Definition mediaSession (a t alb : string) : Session.t :=
  Session.mk (Some (Media.mk (Some a) (Some t) None (Some alb)))
             None None None None None.

(** A snapshot with a media object and a transport status. *)
Definition mediaSessionWithStatus (a t : string) (status : Z) : Session.t :=
  Session.mk (Some (Media.mk (Some a) (Some t) None None))
             None None None
             (Some (Timeline.mk 200 0)) (Some (Playback.mk status)).

(** A snapshot with only a timeline and a transport status. *)
Definition timelineSession (status : Z) : Session.t :=
  Session.mk None None None None
             (Some (Timeline.mk 200 0)) (Some (Playback.mk status)).

(* ================================================================== *)
(** ** The remaining functions of the two files *)

(** [sub] occurs in [s] (what [s.includes(sub)] tests); used to state what
    the parsed fields cannot contain. *)
Fixpoint occurs (sub s : string) : bool :=
  match s with
  | EmptyString => prefix sub EmptyString
  | String _ rest => prefix sub s || occurs sub rest
  end.


(** An HTTP response: [res.json(body)], or [res.status(code).json({error})]. *)
Inductive Response (A : Type) :=
| Json (body : A)
| Failure (status : nat) (error : string).
Arguments Json {A} body.
Arguments Failure {A} status error.

(** The handler of [GET /deezer-music]. *)
Definition deezerMusicRoute (env : Platform) (sv : Server)
  : Response MusicInfo * Server :=
  let '(r, sv1) := getDeezerMusic env sv in
  match r with
  | Resolved (Some music) => (Json music, sv1)
  | Resolved None => (Failure 404 "No music detected", sv1)
  | Rejected _ => (Failure 500 "Error fetching Deezer music", sv1)
  end.

(** The body of [GET /current-session]. *)
Module SessionInfo.
Record t := mk {
  session : option Session.t;
  isPlaying : bool;
  platform : string
}.
End SessionInfo.

(** The handler of [GET /current-session]; [platform] is [os.platform()]. *)
Definition currentSessionRoute (platform : string) (env : Platform) (sv : Server)
  : Response SessionInfo.t * Server :=
  let created :=
    match deezerMonitor sv with
    | Some m => Some m
    | None =>
        if constructOk env then Some (start (initOk env) newMonitor) else None
    end in
  match created with
  | None => (Failure 500 "Error fetching session info", sv)
  | Some m =>
      let '(session, m1) := getCurrentSession (initOk env) (sessions env) m in
      let '(isPlaying, m2) := isMusicPlaying (initOk env) (sessions env) m1 in
      (Json (SessionInfo.mk session isPlaying platform),
       {| deezerMonitor := Some m2; spawned := spawned sv |})
  end.

(** [interface NowPlayingData]. *)
Module NowPlayingData.
Record t := mk {
  artist : string;
  title : string;
  coverUrl : string
}.
End NowPlayingData.

(** Requests the server sends out; the search query is recorded before its
    URI encoding. *)
Inductive WebCall :=
| PostToken
| GetSearch (query : string).

(** What the environment and the metadata service answer during one
    request: the two credentials, the token of the token endpoint, and the
    items of the search, each item with the URLs of its album images. *)
Record Web := mkWeb {
  clientId : option string;
  clientSecret : option string;
  tokenResponse : Outcome string;
  searchResponse : Outcome (list (list string))
}.

Definition credentialsNotSet : string :=
  "Spotify credentials are not set in the environment variables.".
Definition noMusicDetected : string := "No music detected".
Definition errorFetchingData : string := "Error fetching data".

(** [getSpotifyToken]: the settlement, the module variable [spotifyToken]
    afterwards, and the requests made. *)
Definition getSpotifyToken (web : Web) (spotifyToken : option string)
  : Outcome string * option string * list WebCall :=
  if JS.truthy spotifyToken then
    (Resolved (JS.orEmpty spotifyToken), spotifyToken, [])
  else if negb (JS.truthy (clientId web)) || negb (JS.truthy (clientSecret web))
  then (Rejected credentialsNotSet, spotifyToken, [])
  else
    match tokenResponse web with
    | Resolved token => (Resolved token, Some token, [PostToken])
    | Rejected e => (Rejected e, spotifyToken, [PostToken])
    end.

(** The [switch (platform)] of [getNowPlaying]. *)
Definition platformMusic (platform : string) (env : Platform) (sv : Server)
  : Outcome (option MusicInfo) * Server :=
  if String.eqb platform "darwin" then
    (getMacOSMusic (execResult env), spawn Osascript sv)
  else if String.eqb platform "win32" then getWindowsMusic env sv
  else (getLinuxMusic (execResult env), spawn Playerctl sv).

(** The [try] block of [getNowPlaying]: token, search, first image of the
    first item; anything thrown inside it becomes "Error fetching data". *)
Definition fetchCover (web : Web) (spotifyToken : option string)
  (musicInfo : MusicInfo)
  : Outcome NowPlayingData.t * option string * list WebCall :=
  let '(tok, spotifyToken1, calls) := getSpotifyToken web spotifyToken in
  match tok with
  | Rejected _ => (Rejected errorFetchingData, spotifyToken1, calls)
  | Resolved _ =>
      let calls1 :=
        calls ++ [GetSearch (artist musicInfo ++ " " ++ title musicInfo)%string] in
      match searchResponse web with
      | Rejected _ => (Rejected errorFetchingData, spotifyToken1, calls1)
      | Resolved [] =>
          (Resolved (NowPlayingData.mk (artist musicInfo) (title musicInfo) ""),
           spotifyToken1, calls1)
      | Resolved ((url :: _) :: _) =>
          (Resolved (NowPlayingData.mk (artist musicInfo) (title musicInfo) url),
           spotifyToken1, calls1)
      | Resolved ([] :: _) => (Rejected errorFetchingData, spotifyToken1, calls1)
      end
  end.

(** [getNowPlaying]: the settlement, the server afterwards, the module
    variable [spotifyToken] afterwards, and the requests made. *)
Definition getNowPlaying (platform : string) (env : Platform) (web : Web)
  (sv : Server) (spotifyToken : option string)
  : Outcome NowPlayingData.t * Server * option string * list WebCall :=
  let '(r, sv1) := platformMusic platform env sv in
  match r with
  | Rejected e => (Rejected e, sv1, spotifyToken, [])
  | Resolved None => (Rejected noMusicDetected, sv1, spotifyToken, [])
  | Resolved (Some musicInfo) =>
      let '(data, spotifyToken1, calls) := fetchCover web spotifyToken musicInfo in
      (data, sv1, spotifyToken1, calls)
  end.

(** The handler of [GET /now-playing-data]. *)
Definition nowPlayingDataRoute (platform : string) (env : Platform) (web : Web)
  (sv : Server) (spotifyToken : option string)
  : Response NowPlayingData.t * Server * option string * list WebCall :=
  let '(r, sv1, spotifyToken1, calls) :=
    getNowPlaying platform env web sv spotifyToken in
  match r with
  | Resolved data => (Json data, sv1, spotifyToken1, calls)
  | Rejected _ => (Failure 500 errorFetchingData, sv1, spotifyToken1, calls)
  end.

(** What reaches the global monitor: the three routes, and the events the
    platform fires between requests. *)
Inductive Request :=
| SessionEvent (session : Session.t)
| GetDeezerMusic
| GetCurrentSession (platform : string)
| GetNowPlayingData (platform : string) (web : Web).

(** The server after serving a request; the token variable rides along. *)
Definition serve (q : Request * Platform) (state : Server * option string)
  : Server * option string :=
  let '(req, env) := q in
  let '(sv, spotifyToken) := state in
  match req with
  | SessionEvent session =>
      match deezerMonitor sv with
      | Some m =>
          ({| deezerMonitor := Some (onCurrentSessionChanged session (sessions env) m);
              spawned := spawned sv |}, spotifyToken)
      | None => (sv, spotifyToken)
      end
  | GetDeezerMusic => (snd (deezerMusicRoute env sv), spotifyToken)
  | GetCurrentSession platform => (snd (currentSessionRoute platform env sv), spotifyToken)
  | GetNowPlayingData platform web =>
      let '(_, sv1, spotifyToken1, _) :=
        nowPlayingDataRoute platform env web sv spotifyToken in
      (sv1, spotifyToken1)
  end.

Definition serveAll (qs : list (Request * Platform))
  (state : Server * option string) : Server * option string :=
  fold_left (fun s q => serve q s) qs state.


(** A string with no white space at either end. *)
Definition trimmed (s : string) : Prop := JS.trim s = s.

(* ================================================================== *)
(** * Properties *)

(** ** Basic facts *)

Lemma strictNeq_false (a b : option string) :
  strictNeq a b = false <-> a = b.
Proof.
  destruct a as [x|], b as [y|]; simpl; split; intro H;
    try discriminate; try reflexivity.
  - apply negb_false_iff, String.eqb_eq in H. now subst.
  - injection H as ->. now rewrite String.eqb_refl.
Qed.

Lemma strictNeq_true (a b : option string) :
  strictNeq a b = true <-> a <> b.
Proof.
  rewrite <- not_false_iff_true, strictNeq_false. tauto.
Qed.

Lemma hasChanged_same_track (p c : MusicInfo) :
  artist p = artist c -> title p = title c ->
  hasChanged (Some p) c = strictNeq (album p) (album c).
Proof.
  intros Ha Ht. unfold hasChanged.
  now rewrite Ha, Ht, !String.eqb_refl.
Qed.

Lemma currentMusic_logMusicChange action mi st :
  currentMusic (logMusicChange action mi st) = currentMusic st.
Proof.
  unfold logMusicChange.
  destruct mi as [m|]; [destruct (_ && _)|]; reflexivity.
Qed.

Lemma isInitialized_logMusicChange action mi st :
  isInitialized (logMusicChange action mi st) = isInitialized st.
Proof.
  unfold logMusicChange.
  destruct mi as [m|]; [destruct (_ && _)|]; reflexivity.
Qed.

Lemma trace_logMusicChange action mi st :
  exists shown,
    trace (logMusicChange action mi st)
    = Console (MusicChange action shown) :: trace st.
Proof.
  unfold logMusicChange.
  destruct mi as [m|]; [destruct (_ && _)|]; eexists; reflexivity.
Qed.

Lemma currentMusic_start ok st : currentMusic (start ok st) = currentMusic st.
Proof.
  unfold start. destruct (isInitialized st), ok; reflexivity.
Qed.

(** [handlePlaybackStatus] clears the track on status 0 and leaves it as it
    was on every other status. *)
Lemma currentMusic_handlePlaybackStatus code st :
  currentMusic (handlePlaybackStatus code st)
  = if (code =? 0)%Z then None else currentMusic st.
Proof.
  unfold handlePlaybackStatus.
  destruct code as [|[p|[p|p|]|]|p]; simpl;
    rewrite ?currentMusic_logMusicChange; reflexivity.
Qed.

Lemma albumPresent_record mi st :
  album mi <> None -> albumPresent st ->
  albumPresent (if hasMusicChanged mi st
                then logMusicChange NovaMusicaDetectada (Some mi)
                       (setCurrentMusic (Some mi) st)
                else st).
Proof.
  intros Hmi Hst. destruct (hasMusicChanged mi st); [|exact Hst].
  intros m. rewrite currentMusic_logMusicChange. simpl.
  intros [= <-]. exact Hmi.
Qed.

Lemma albumPresent_handlePlaybackStatus code st :
  albumPresent st -> albumPresent (handlePlaybackStatus code st).
Proof.
  intros Hst m. rewrite currentMusic_handlePlaybackStatus.
  destruct (code =? 0)%Z; [discriminate|apply Hst].
Qed.

Lemma albumPresent_extractMusicInfo s st :
  albumPresent st -> albumPresent (extractMusicInfo s st).
Proof.
  intro Hst. unfold extractMusicInfo, probe.
  destruct (Session.media s) as [m|];
    [apply albumPresent_record; [discriminate|exact Hst]|].
  destruct (_ || _);
    [apply albumPresent_record; [discriminate|exact Hst]|].
  destruct (Session.timeline s) as [tl|]; [|exact Hst].
  destruct (0 <? Timeline.duration tl)%Z; [|exact Hst].
  destruct (Session.playback s) as [pb|]; [|exact Hst].
  apply albumPresent_handlePlaybackStatus. exact Hst.
Qed.

Lemma albumPresent_start ok st : albumPresent st -> albumPresent (start ok st).
Proof. intros Hst m. rewrite currentMusic_start. apply Hst. Qed.

Lemma albumPresent_getCurrentMusic ok ss st :
  albumPresent st -> albumPresent (snd (getCurrentMusic ok ss st)).
Proof.
  intro Hst. unfold getCurrentMusic.
  set (st1 := if negb (isInitialized st) then start ok st else st).
  assert (H1 : albumPresent st1).
  { subst st1. destruct (isInitialized st); simpl;
      [exact Hst|now apply albumPresent_start]. }
  destruct ss as [|s rest]; simpl; [exact H1|].
  destruct (Session.media s) as [m|]; [|exact H1].
  destruct (hasMusicChanged _ st1); [|exact H1].
  intros m'. simpl. intros [= <-]. discriminate.
Qed.

Lemma albumPresent_step o st : albumPresent st -> albumPresent (step o st).
Proof.
  intro Hst.
  destruct o as [payload ss|ok| |ok ss|ok ss|ok ss]; unfold step.
  - unfold onCurrentSessionChanged, checkCurrentMusic.
    destruct ss as [|s rest]; [exact Hst|].
    now apply albumPresent_extractMusicInfo.
  - now apply albumPresent_start.
  - unfold stop. simpl. destruct (isInitialized st); exact Hst.
  - now apply albumPresent_getCurrentMusic.
  - unfold getCurrentSession.
    destruct ss, (isInitialized st); simpl;
      solve [exact Hst | now apply albumPresent_start].
  - unfold isMusicPlaying, getCurrentSession.
    destruct ss, (isInitialized st); simpl;
      solve [exact Hst | now apply albumPresent_start].
Qed.

Lemma albumPresent_run ops st : albumPresent st -> albumPresent (run ops st).
Proof.
  revert st. induction ops as [|o ops IH]; intros st H; [exact H|].
  unfold run in *. simpl. apply IH. now apply albumPresent_step.
Qed.

(** ** The change detector *)

(** C2, as the code has it: [hasChanged] is true whenever the previous value
    is absent, false on a record compared with itself, and, for records that
    agree on artist and title, true exactly when the albums differ as
    possibly missing strings: [!==] compares them as they are, so a missing
    album differs from the empty string.  When both records carry an album
    the detector is the one of the specification, plain case-sensitive
    string inequality on the three fields; and every record a monitor stores
    carries one. *)
Theorem hasChanged_strict :
  (forall x, hasChanged None x = true)
  /\ (forall x, hasChanged (Some x) x = false)
  /\ (forall p c, artist p = artist c -> title p = title c ->
        (hasChanged (Some p) c = true <-> album p <> album c))
  /\ (forall p c, album p <> None -> album c <> None ->
        hasChanged (Some p) c = Spec.hasChanged (Some p) c)
  /\ (forall st, reachable st -> albumPresent st).
Proof.
  split; [reflexivity|].
  split.
  { intro x. rewrite hasChanged_same_track by reflexivity.
    now apply strictNeq_false. }
  split.
  { intros p c Ha Ht. rewrite hasChanged_same_track by assumption.
    apply strictNeq_true. }
  split.
  { intros p c Hp Hc. unfold hasChanged, Spec.hasChanged, Spec.normAlbum.
    destruct (album p) as [a|]; [|contradiction].
    destruct (album c) as [b|]; [|contradiction].
    reflexivity. }
  intros st [ops ->]. apply albumPresent_run. intros m H. discriminate H.
Qed.

Lemma hasChanged_strict_witness :
  (hasChanged (Some (mkMusicInfo "a" "t" (Some "x"))) (mkMusicInfo "a" "t" (Some "y")) = true
   <-> Some "x" <> Some "y")
  /\ hasChanged (Some (mkMusicInfo "a" "t" (Some "x"))) (mkMusicInfo "A" "t" (Some "x"))
     = Spec.hasChanged (Some (mkMusicInfo "a" "t" (Some "x"))) (mkMusicInfo "A" "t" (Some "x"))
  /\ albumPresent
       (run [CallGetCurrentMusic true [mediaSession "A" "T" "X"]] newMonitor).
Proof.
  destruct hasChanged_strict as [_ [_ [H1 [H2 H3]]]].
  split.
  - apply (H1 (mkMusicInfo "a" "t" (Some "x")) (mkMusicInfo "a" "t" (Some "y")));
      reflexivity.
  - split.
    + apply H2; discriminate.
    + apply H3. now exists [CallGetCurrentMusic true [mediaSession "A" "T" "X"]].
Defined.

(** C2 as worded fails: with a stored record that has no album and a
    candidate whose album is the empty string, the normalized albums are
    equal, yet the code reports a change. *)
Lemma hasChanged_absent_album_differs :
  ~ (forall p c, artist p = artist c -> title p = title c ->
       (hasChanged (Some p) c = true <-> Spec.normAlbum p <> Spec.normAlbum c)).
Proof.
  intro H.
  specialize (H (mkMusicInfo "a" "t" None) (mkMusicInfo "a" "t" (Some ""))
                eq_refl eq_refl).
  destruct H as [H _]. now apply H.
Qed.

(** ** The normalizer *)

Lemma probe_media s st media :
  Session.media s = Some media -> probe s st = (Some (fromMedia media), st).
Proof. intro H. unfold probe. now rewrite H. Qed.

Lemma probe_direct s st :
  Session.media s = None ->
  JS.truthy (Session.artist s) || JS.truthy (Session.title s) = true ->
  probe s st = (Some (fromDirect s), st).
Proof. intros Hm Hd. unfold probe. now rewrite Hm, Hd. Qed.

Lemma probe_neither s st :
  Session.media s = None ->
  JS.truthy (Session.artist s) || JS.truthy (Session.title s) = false ->
  fst (probe s st) = None.
Proof.
  intros Hm Hd. unfold probe. rewrite Hm, Hd.
  destruct (Session.timeline s) as [tl|]; [|reflexivity].
  destruct (0 <? Timeline.duration tl)%Z; [|reflexivity].
  now destruct (Session.playback s).
Qed.

(** C3: a snapshot with a [media] object is normalized from that object
    alone: artist, title and album are the media properties, each replaced by
    the empty string when missing; the record is stored (and logged) when the
    change detector says so; no status is processed; and the result does not
    depend on the top-level artist, title and album, nor on the timeline and
    playback data.  The rules are tried in order: the direct properties are
    used only without a media object, and then alone; the timeline rule is
    reached only when both fail, and yields no record. *)
Theorem extractMusicInfo_first_rule_only
  (s : Session.t) (st : DeezerMusicMonitor) (media : Media.t)
  (Hmedia : Session.media s = Some media) :
  let mi := {| artist := JS.orEmpty (Media.artist media);
               title := JS.orEmpty (Media.title media);
               album := Some (JS.orEmpty (Media.album media)) |} in
  probe s st = (Some mi, st)
  /\ extractMusicInfo s st
     = (if hasChanged (currentMusic st) mi
        then logMusicChange NovaMusicaDetectada (Some mi) (setCurrentMusic (Some mi) st)
        else st)
  /\ (forall a t al tl pb,
        extractMusicInfo (Session.mk (Some media) a t al tl pb) st
        = extractMusicInfo s st)
  /\ (forall a t al tl pb,
        JS.truthy a || JS.truthy t = true ->
        let d := Session.mk None a t al tl pb in
        forall tl' pb',
          probe d st = (Some (fromDirect d), st)
          /\ extractMusicInfo (Session.mk None a t al tl' pb') st
             = extractMusicInfo d st)
  /\ (forall a t al tl pb,
        JS.truthy a || JS.truthy t = false ->
        fst (probe (Session.mk None a t al tl pb) st) = None).
Proof.
  intro mi.
  assert (Hp : probe s st = (Some mi, st)) by now apply probe_media.
  split; [exact Hp|].
  split; [unfold extractMusicInfo; now rewrite Hp|].
  split.
  { intros a t al tl pb. unfold extractMusicInfo.
    rewrite Hp.
    now rewrite (probe_media (Session.mk (Some media) a t al tl pb) st media eq_refl). }
  split.
  { intros a t al tl pb Hd d tl' pb'.
    split; [now apply probe_direct|].
    unfold extractMusicInfo.
    rewrite (probe_direct d st eq_refl Hd).
    now rewrite (probe_direct (Session.mk None a t al tl' pb') st eq_refl Hd). }
  intros a t al tl pb Hd. now apply probe_neither.
Qed.

Lemma extractMusicInfo_first_rule_only_witness :
  extractMusicInfo (mediaSessionWithStatus "A" "T" 0) newMonitor
  = extractMusicInfo (Session.mk (Session.media (mediaSessionWithStatus "A" "T" 0))
                        (Some "X") (Some "Y") None None None) newMonitor.
Proof.
  destruct (extractMusicInfo_first_rule_only
              (mediaSessionWithStatus "A" "T" 0) newMonitor
              (Media.mk (Some "A") (Some "T") None None) eq_refl)
    as [_ [_ [H _]]].
  symmetry. apply H.
Defined.

(** ** The query path *)

Lemma getCurrentMusic_returns_stored ok ss st :
  fst (getCurrentMusic ok ss st) = currentMusic (snd (getCurrentMusic ok ss st)).
Proof. reflexivity. Qed.

Lemma getCurrentMusic_no_media ok ss st :
  match ss with
  | [] => True
  | s :: _ => Session.media s = None
  end ->
  currentMusic (snd (getCurrentMusic ok ss st)) = currentMusic st.
Proof.
  intro H. unfold getCurrentMusic.
  destruct ss as [|s rest]; simpl.
  - destruct (isInitialized st); simpl; [reflexivity|apply currentMusic_start].
  - rewrite H. destruct (isInitialized st); simpl;
      [reflexivity|apply currentMusic_start].
Qed.

Lemma getCurrentMusic_keeps_some ok ss st :
  currentMusic st <> None ->
  currentMusic (snd (getCurrentMusic ok ss st)) <> None.
Proof.
  intro H. unfold getCurrentMusic.
  set (st1 := if negb (isInitialized st) then start ok st else st).
  assert (H1 : currentMusic st1 <> None).
  { subst st1. destruct (isInitialized st); simpl;
      [assumption|now rewrite currentMusic_start]. }
  destruct ss as [|s rest]; simpl; [exact H1|].
  destruct (Session.media s) as [m|]; [|exact H1].
  destruct (hasMusicChanged _ st1); simpl; [discriminate|exact H1].
Qed.

(** C1, at a snapshot whose media object carries [albumTitle]: the query
    path reads the album from [albumTitle], the normalizer of the event path
    reads it from [album]; on the same snapshot [getCurrentMusic] returns the
    album "X" where the normalizer's rule gives the empty string, and the
    two paths store different records. *)
Theorem getCurrentMusic_album_diverges :
  let s := mediaSession "A" "T" "X" in
  fst (getCurrentMusic true [s] newMonitor)
  = Some {| artist := "A"; title := "T"; album := Some "X" |}
  /\ fst (probe s newMonitor)
     = Some {| artist := "A"; title := "T"; album := Some "" |}
  /\ currentMusic (extractMusicInfo s newMonitor)
     = Some {| artist := "A"; title := "T"; album := Some "" |}.
Proof. repeat split. Qed.

(** ** Playback status *)

Lemma currentMusic_handlePlaybackStatus_stopped st :
  currentMusic (handlePlaybackStatus 0 st) = None.
Proof. reflexivity. Qed.

Lemma playbackState_handlePlaybackStatus code st :
  playbackState (handlePlaybackStatus code st) = Some (statusOf code).
Proof.
  unfold playbackState, handlePlaybackStatus, statusOf.
  destruct code as [|[p|[p|p|]|]|p]; simpl; try reflexivity;
    match goal with
    | |- context [logMusicChange ?a ?m ?s] =>
        destruct (trace_logMusicChange a m s) as [x ->]
    end; reflexivity.
Qed.

(** With the guard of the third branch, [extractMusicInfo] is the console
    line of that branch followed by [handlePlaybackStatus]. *)
Lemma extractMusicInfo_processed s st code :
  processedStatus s = Some code ->
  exists d p,
    extractMusicInfo s st
    = handlePlaybackStatus code (console (MusicaSemDetalhes d p (Some code)) st).
Proof.
  unfold processedStatus, extractMusicInfo, probe.
  destruct (Session.media s); [discriminate|].
  destruct (_ || _); [discriminate|].
  destruct (Session.timeline s) as [tl|]; [|discriminate].
  destruct (0 <? Timeline.duration tl)%Z; [|discriminate].
  destruct (Session.playback s) as [pb|]; [|discriminate].
  simpl. intros [= <-]. now eexists _, _.
Qed.

Lemma extractMusicInfo_stopped s st :
  processedStatus s = Some 0%Z -> currentMusic (extractMusicInfo s st) = None.
Proof.
  intro H. destruct (extractMusicInfo_processed s st 0 H) as (d & p & ->).
  reflexivity.
Qed.

(** C10: [getCurrentMusic] never clears the stored track.  A stored track
    stays a stored track whatever the sessions are; when the session list is
    empty or its first session has no media object the stored value is left
    as it was and is the value returned; this holds along any sequence of
    such polls; and a snapshot of the event path whose status 0 is processed
    does clear it. *)
Theorem getCurrentMusic_never_clears
  (ok : bool) (ss : list Session.t) (st : DeezerMusicMonitor) :
  (currentMusic st <> None -> fst (getCurrentMusic ok ss st) <> None)
  /\ (findsNoMedia ss ->
      currentMusic (snd (getCurrentMusic ok ss st)) = currentMusic st
      /\ fst (getCurrentMusic ok ss st) = currentMusic st)
  /\ (forall polls : list (bool * list Session.t),
        Forall (fun c => findsNoMedia (snd c)) polls ->
        currentMusic
          (run (map (fun c => CallGetCurrentMusic (fst c) (snd c)) polls) st)
        = currentMusic st)
  /\ (forall payload s rest,
        processedStatus s = Some 0%Z ->
        currentMusic (onCurrentSessionChanged payload (s :: rest) st) = None).
Proof.
  assert (Hno : forall ok' ss' st', findsNoMedia ss' ->
            currentMusic (snd (getCurrentMusic ok' ss' st')) = currentMusic st').
  { intros ok' ss' st' [->|(s & rest & -> & Hs)];
      now apply getCurrentMusic_no_media. }
  split.
  { intro H. rewrite getCurrentMusic_returns_stored.
    now apply getCurrentMusic_keeps_some. }
  split.
  { intro H. rewrite getCurrentMusic_returns_stored. split; now apply Hno. }
  split.
  { intros polls. revert st.
    induction polls as [|[ok' ss'] polls IH]; intros st H; [reflexivity|].
    inversion H as [|? ? Hhd Htl]; subst. simpl in *.
    unfold run in *. simpl. rewrite IH by assumption.
    now apply Hno. }
  intros payload s rest H.
  unfold onCurrentSessionChanged, checkCurrentMusic.
  now apply extractMusicInfo_stopped.
Qed.

Lemma getCurrentMusic_never_clears_witness :
  fst (getCurrentMusic true [] (setCurrentMusic (Some (mkMusicInfo "A" "T" (Some ""))) newMonitor))
  = Some (mkMusicInfo "A" "T" (Some ""))
  /\ fst (getCurrentMusic true [timelineSession 1]
            (setCurrentMusic (Some (mkMusicInfo "A" "T" (Some ""))) newMonitor))
     <> None.
Proof.
  split.
  - destruct (getCurrentMusic_never_clears true []
                (setCurrentMusic (Some (mkMusicInfo "A" "T" (Some ""))) newMonitor))
      as [_ [H _]].
    apply H. left. reflexivity.
  - destruct (getCurrentMusic_never_clears true [timelineSession 1]
                (setCurrentMusic (Some (mkMusicInfo "A" "T" (Some ""))) newMonitor))
      as [H _].
    apply H. simpl. discriminate.
Defined.

Lemma playbackState_record mi st :
  playbackState
    (if hasMusicChanged mi st
     then logMusicChange NovaMusicaDetectada (Some mi) (setCurrentMusic (Some mi) st)
     else st)
  = playbackState st.
Proof.
  destruct (hasMusicChanged mi st); [|reflexivity].
  unfold playbackState.
  destruct (trace_logMusicChange NovaMusicaDetectada (Some mi)
              (setCurrentMusic (Some mi) st)) as [x ->].
  reflexivity.
Qed.

Lemma playbackState_extract_unprocessed s st :
  processedStatus s = None ->
  playbackState (extractMusicInfo s st) = playbackState st.
Proof.
  unfold processedStatus, extractMusicInfo, probe.
  destruct (Session.media s) as [m|]; [intros _; apply playbackState_record|].
  destruct (_ || _); [intros _; apply playbackState_record|].
  destruct (Session.timeline s) as [tl|]; [|reflexivity].
  destruct (0 <? Timeline.duration tl)%Z; [|reflexivity].
  destruct (Session.playback s) as [pb|]; [discriminate|reflexivity].
Qed.

Lemma playbackState_start ok st : playbackState (start ok st) = playbackState st.
Proof.
  unfold start. destruct (isInitialized st), ok; reflexivity.
Qed.

Lemma playbackState_getCurrentMusic ok ss st :
  playbackState (snd (getCurrentMusic ok ss st)) = playbackState st.
Proof.
  unfold getCurrentMusic.
  set (st1 := if negb (isInitialized st) then start ok st else st).
  assert (H1 : playbackState st1 = playbackState st).
  { subst st1. destruct (isInitialized st); simpl;
      [reflexivity|apply playbackState_start]. }
  destruct ss as [|s rest]; simpl; [exact H1|].
  destruct (Session.media s) as [m|]; [|exact H1].
  destruct (hasMusicChanged _ st1); [|exact H1].
  exact H1.
Qed.

(** C4, as the code has it: processing status 0 clears [currentMusic]
    whatever it was, and leaves the playback state Stopped.  A snapshot's
    status is processed exactly under the guard of the third branch of
    [extractMusicInfo] (no media object, no direct artist or title, positive
    timeline duration, a playback object); for such a snapshot with status 0
    the track is absent afterwards.  Any other snapshot, and every
    [getCurrentMusic], leaves the playback state as it was. *)
Theorem stopped_clears_when_processed
  (s : Session.t) (st : DeezerMusicMonitor) :
  (currentMusic (handlePlaybackStatus 0 st) = None
   /\ playbackState (handlePlaybackStatus 0 st) = Some Stopped)
  /\ (processedStatus s = Some 0%Z ->
      currentMusic (extractMusicInfo s st) = None
      /\ playbackState (extractMusicInfo s st) = Some Stopped)
  /\ (forall code, processedStatus s = Some code ->
      playbackState (extractMusicInfo s st) = Some (statusOf code))
  /\ (processedStatus s = None ->
      playbackState (extractMusicInfo s st) = playbackState st)
  /\ (forall ok ss,
      playbackState (snd (getCurrentMusic ok ss st)) = playbackState st).
Proof.
  assert (Hcode : forall code, processedStatus s = Some code ->
            playbackState (extractMusicInfo s st) = Some (statusOf code)).
  { intros code H.
    destruct (extractMusicInfo_processed s st code H) as (d & p & ->).
    apply playbackState_handlePlaybackStatus. }
  split; [split; [reflexivity|apply playbackState_handlePlaybackStatus]|].
  split.
  { intro H. split; [now apply extractMusicInfo_stopped|now apply (Hcode 0%Z)]. }
  split; [exact Hcode|].
  split; [apply playbackState_extract_unprocessed|].
  intros ok ss. apply playbackState_getCurrentMusic.
Qed.

Lemma stopped_clears_when_processed_witness :
  currentMusic
    (extractMusicInfo (timelineSession 0)
       (setCurrentMusic (Some (mkMusicInfo "A" "T" (Some ""))) newMonitor))
  = None
  /\ playbackState
       (extractMusicInfo (mediaSessionWithStatus "A" "T" 0) newMonitor)
     = playbackState newMonitor.
Proof.
  split.
  - destruct (stopped_clears_when_processed (timelineSession 0)
                (setCurrentMusic (Some (mkMusicInfo "A" "T" (Some ""))) newMonitor))
      as [_ [H _]].
    apply H. reflexivity.
  - destruct (stopped_clears_when_processed
                (mediaSessionWithStatus "A" "T" 0) newMonitor)
      as [_ [_ [_ [H _]]]].
    apply H. reflexivity.
Defined.

(** C4 as worded fails.  After a timeline-only snapshot with status 0, a
    snapshot that carries a media object (and status 0 again) records its
    track without any status being processed: the state is reachable, the
    last status processed is Stopped, and [currentMusic] is present. *)
Lemma stopped_state_with_track :
  ~ (forall st, reachable st ->
       playbackState st = Some Stopped -> currentMusic st = None).
Proof.
  intro H.
  pose (ops := [SessionChanged (timelineSession 0) [timelineSession 0];
                SessionChanged (mediaSessionWithStatus "A" "T" 0)
                               [mediaSessionWithStatus "A" "T" 0]]).
  specialize (H (run ops newMonitor)).
  assert (R : reachable (run ops newMonitor)) by (now exists ops).
  specialize (H R eq_refl). discriminate H.
Qed.

(** ** Lifecycle *)

Lemma lifecycle_console l st : lifecycle (console l st) = lifecycle st.
Proof. reflexivity. Qed.

Lemma lifecycle_setCurrentMusic m st :
  lifecycle (setCurrentMusic m st) = lifecycle st.
Proof. reflexivity. Qed.

Lemma lifecycle_logMusicChange action mi st :
  lifecycle (logMusicChange action mi st) = lifecycle st.
Proof.
  unfold logMusicChange.
  destruct mi as [m|]; [destruct (_ && _)|]; reflexivity.
Qed.

Lemma lifecycle_handlePlaybackStatus code st :
  lifecycle (handlePlaybackStatus code st) = lifecycle st.
Proof.
  unfold handlePlaybackStatus.
  destruct code as [|[p|[p|p|]|]|p];
    rewrite ?lifecycle_setCurrentMusic, ?lifecycle_logMusicChange;
    reflexivity.
Qed.

Lemma lifecycle_extractMusicInfo s st :
  lifecycle (extractMusicInfo s st) = lifecycle st.
Proof.
  assert (Hrec : forall mi st',
            lifecycle (if hasMusicChanged mi st'
                       then logMusicChange NovaMusicaDetectada (Some mi)
                              (setCurrentMusic (Some mi) st')
                       else st') = lifecycle st').
  { intros mi st'. destruct (hasMusicChanged mi st'); [|reflexivity].
    now rewrite lifecycle_logMusicChange. }
  unfold extractMusicInfo, probe.
  destruct (Session.media s) as [m|]; [apply Hrec|].
  destruct (_ || _); [apply Hrec|].
  destruct (Session.timeline s) as [tl|]; [|reflexivity].
  destruct (0 <? Timeline.duration tl)%Z; [|reflexivity].
  destruct (Session.playback s) as [pb|]; [|reflexivity].
  now rewrite lifecycle_handlePlaybackStatus.
Qed.

Lemma lifecycle_onCurrentSessionChanged payload ss st :
  lifecycle (onCurrentSessionChanged payload ss st) = lifecycle st.
Proof.
  unfold onCurrentSessionChanged, checkCurrentMusic.
  destruct ss as [|s rest]; [reflexivity|].
  now rewrite lifecycle_extractMusicInfo.
Qed.

Lemma lifecycle_start ok st :
  lifecycle (start ok st)
  = let '(subs, dest, calls, init) := lifecycle st in
    if init then (subs, dest, calls, true)
    else if ok then (S subs, dest, S calls, true)
         else (subs, dest, S calls, false).
Proof.
  unfold lifecycle, start.
  destruct (isInitialized st) eqn:E, ok; simpl; rewrite ?E; reflexivity.
Qed.

Lemma lifecycle_stop st :
  lifecycle (stop st)
  = let '(subs, dest, calls, init) := lifecycle st in
    if init then (subs, S dest, calls, false) else (subs, dest, calls, false).
Proof.
  unfold lifecycle, stop. simpl.
  destruct (isInitialized st) eqn:E; simpl; rewrite ?E; reflexivity.
Qed.

(** The query methods touch the lifecycle only through their [start]. *)
Lemma lifecycle_getCurrentMusic ok ss st :
  lifecycle (snd (getCurrentMusic ok ss st))
  = if isInitialized st then lifecycle st else lifecycle (start ok st).
Proof.
  unfold getCurrentMusic.
  set (st1 := if negb (isInitialized st) then start ok st else st).
  assert (H1 : lifecycle st1
               = if isInitialized st then lifecycle st else lifecycle (start ok st)).
  { subst st1. now destruct (isInitialized st). }
  destruct ss as [|s rest]; simpl; [exact H1|].
  destruct (Session.media s) as [m|]; [|exact H1].
  destruct (hasMusicChanged _ st1); exact H1.
Qed.

Lemma lifecycle_getCurrentSession ok ss st :
  lifecycle (snd (getCurrentSession ok ss st))
  = if isInitialized st then lifecycle st else lifecycle (start ok st).
Proof.
  unfold getCurrentSession.
  destruct ss, (isInitialized st); reflexivity.
Qed.

Lemma lifecycle_isMusicPlaying ok ss st :
  lifecycle (snd (isMusicPlaying ok ss st))
  = if isInitialized st then lifecycle st else lifecycle (start ok st).
Proof.
  rewrite <- lifecycle_getCurrentSession with (ss := ss).
  unfold isMusicPlaying.
  destruct (getCurrentSession ok ss st) as [[s|] st1]; reflexivity.
Qed.

Lemma balanced_start ok st : balanced st -> balanced (start ok st).
Proof.
  unfold balanced. rewrite lifecycle_start.
  destruct (lifecycle st) as [[[subs dest] calls] [|]], ok; lia.
Qed.

Lemma balanced_step o st : balanced st -> balanced (step o st).
Proof.
  intro H. pose proof (fun ok => balanced_start ok st H) as Hstart.
  unfold balanced in *.
  destruct o as [payload ss|ok| |ok ss|ok ss|ok ss]; unfold step.
  - now rewrite lifecycle_onCurrentSessionChanged.
  - apply Hstart.
  - rewrite lifecycle_stop.
    destruct (lifecycle st) as [[[subs dest] calls] [|]]; lia.
  - rewrite lifecycle_getCurrentMusic.
    destruct (isInitialized st); [exact H|apply Hstart].
  - rewrite lifecycle_getCurrentSession.
    destruct (isInitialized st); [exact H|apply Hstart].
  - rewrite lifecycle_isMusicPlaying.
    destruct (isInitialized st); [exact H|apply Hstart].
Qed.

Lemma balanced_run ops st : balanced st -> balanced (run ops st).
Proof.
  revert st. induction ops as [|o ops IH]; intros st H; [exact H|].
  unfold run in *. simpl. apply IH. now apply balanced_step.
Qed.

(** C9: [start] is idempotent.  On an initialized monitor it only prints a
    line: fields and subscription are untouched.  Two calls in succession on
    a monitor that is not initialized, the platform accepting the
    subscription, call [_initialize] once and subscribe once, the second
    call being that no-op; whatever the platform answers, two calls never
    subscribe twice.  [isInitialized] goes from false to true exactly in a
    [start] that subscribes, and from true to false exactly in a [stop] that
    finds it true, which destroys the subscription once; along every run of
    the monitor each subscription is either destroyed or the one in force. *)
Theorem start_idempotent (st : DeezerMusicMonitor) (ok ok' : bool) :
  (isInitialized st = true -> start ok st = console JaInicializado st)
  /\ (isInitialized st = false ->
      start ok' (start true st) = console JaInicializado (start true st)
      /\ initializeCalls (trace (start ok' (start true st)))
         = S (initializeCalls (trace st))
      /\ subscriptions (trace (start ok' (start true st)))
         = S (subscriptions (trace st)))
  /\ subscriptions (trace (start ok' (start ok st))) <= S (subscriptions (trace st))
  /\ isInitialized (start ok st) = isInitialized st || ok
  /\ subscriptions (trace (start ok st))
     = subscriptions (trace st) + (if negb (isInitialized st) && ok then 1 else 0)
  /\ isInitialized (stop st) = false
  /\ destroyCalls (trace (stop st))
     = destroyCalls (trace st) + (if isInitialized st then 1 else 0)
  /\ currentMusic (start ok st) = currentMusic st
  /\ (forall ops, balanced (run ops newMonitor)).
Proof.
  split.
  { intro H. unfold start. now rewrite H. }
  split.
  { intro H. unfold start at 1 2 3. rewrite H. simpl.
    repeat split; unfold start; rewrite H; reflexivity. }
  split.
  { unfold start. destruct (isInitialized st) eqn:E, ok, ok'; simpl;
      rewrite ?E; simpl; unfold subscriptions; simpl; lia. }
  split.
  { unfold start. destruct (isInitialized st) eqn:E, ok; simpl;
      rewrite ?E; reflexivity. }
  split.
  { pose proof (lifecycle_start ok st) as H. unfold lifecycle in H.
    destruct (isInitialized st), ok; injection H as H1 _ _ _;
      rewrite H1; simpl; lia. }
  split.
  { pose proof (lifecycle_stop st) as H. unfold lifecycle in H.
    destruct (isInitialized st); now injection H as _ _ _ H4. }
  split.
  { pose proof (lifecycle_stop st) as H. unfold lifecycle in H.
    destruct (isInitialized st); injection H as _ H2 _ _; rewrite H2; lia. }
  split; [apply currentMusic_start|].
  intro ops. apply balanced_run. reflexivity.
Qed.

Lemma start_idempotent_witness :
  start false (start true newMonitor) = console JaInicializado (start true newMonitor)
  /\ initializeCalls (trace (start false (start true newMonitor))) = 1
  /\ start true (start true newMonitor)
     = console JaInicializado (start true newMonitor).
Proof.
  destruct (start_idempotent newMonitor true false) as [_ [H _]].
  destruct (H eq_refl) as [H1 [H2 _]].
  split; [exact H1|]. split; [exact H2|].
  destruct (start_idempotent (start true newMonitor) true true) as [H3 _].
  apply H3. reflexivity.
Defined.

(* ================================================================== *)
(** ** Splitting *)

Lemma slice_app (p s : string) : JS.slice (String.length p) (p ++ s)%string = s.
Proof. induction p as [|c p IH]; [reflexivity|exact IH]. Qed.

Lemma prefix_app (p s : string) :
  prefix p s = true -> exists s', s = (p ++ s')%string.
Proof.
  revert s. induction p as [|c p IH]; intros s H.
  - now exists s.
  - destruct s as [|d s]; [discriminate|]. simpl in H.
    destruct (ascii_dec c d) as [->|]; [|discriminate].
    destruct (IH s H) as [s' ->]. now exists s'.
Qed.

Lemma splitFrom_skip (sep x s : string) :
  JS.splitFrom sep (String.length x) (x ++ s)%string = JS.splitFrom sep 0 s.
Proof.
  induction x as [|c x IH]; [|exact IH].
  simpl. now destruct s.
Qed.

(** Without an occurrence of the separator, [split] returns the string as
    its only part. *)
Lemma splitFrom_no_cut (sep s : string) :
  Spec.cutFirst sep s = None -> JS.splitFrom sep 0 s = (s, []).
Proof.
  induction s as [|c s IH]; [reflexivity|].
  cbn [Spec.cutFirst JS.splitFrom].
  destruct (prefix sep (String c s)); [discriminate|].
  destruct (Spec.cutFirst sep s) as [[a b]|]; [discriminate|].
  intros _. now rewrite IH.
Qed.

(** The first part of [split] is the text before the first occurrence of
    the separator, and the other parts are the split of the text after it. *)
Lemma splitFrom_cut (sep s a b : string) :
  JS.nonEmpty sep = true ->
  Spec.cutFirst sep s = Some (a, b) ->
  JS.splitFrom sep 0 s = (a, JS.split sep b).
Proof.
  intro Hsep. revert a.
  induction s as [|c s IH]; intros a; [discriminate|].
  cbn [Spec.cutFirst JS.splitFrom].
  destruct (prefix sep (String c s)) eqn:P.
  - intros [= <- <-].
    destruct (prefix_app _ _ P) as [s' E].
    destruct sep as [|c0 sep']; [discriminate|].
    simpl in E. injection E as -> ->.
    change (JS.slice (String.length (String c0 sep')) (String c0 (sep' ++ s')%string))
      with (JS.slice (String.length sep') (sep' ++ s')%string).
    rewrite slice_app.
    change (Nat.pred (String.length (String c0 sep'))) with (String.length sep').
    rewrite splitFrom_skip. unfold JS.split.
    now destruct (JS.splitFrom (String c0 sep') 0 s').
  - destruct (Spec.cutFirst sep s) as [[a' b']|]; [|discriminate].
    intros [= <- <-]. now rewrite (IH a' eq_refl).
Qed.

Lemma split_no_cut (sep s : string) :
  Spec.cutFirst sep s = None -> JS.split sep s = [s].
Proof. intro H. unfold JS.split. now rewrite splitFrom_no_cut. Qed.

Lemma split_cut (sep s a b : string) :
  JS.nonEmpty sep = true ->
  Spec.cutFirst sep s = Some (a, b) ->
  JS.split sep s = a :: JS.split sep b.
Proof.
  intros Hsep H. unfold JS.split at 1. now rewrite (splitFrom_cut sep s a b).
Qed.

Lemma split_nonempty (sep s : string) : exists p ps, JS.split sep s = p :: ps.
Proof. unfold JS.split. destruct (JS.splitFrom sep 0 s). now eexists _, _. Qed.

(** The destructuring of the adapters, by the occurrences of [" - "]. *)
Lemma artistTitle_none (output : string) :
  Spec.cutFirst " - " output = None ->
  artistTitle output = (Some output, None).
Proof. intro H. unfold artistTitle. now rewrite split_no_cut. Qed.

Lemma artistTitle_one (output a r : string) :
  Spec.cutFirst " - " output = Some (a, r) ->
  Spec.cutFirst " - " r = None ->
  artistTitle output = (Some a, Some r).
Proof.
  intros H1 H2. unfold artistTitle.
  rewrite (split_cut " - " _ a r eq_refl H1), (split_no_cut _ _ H2). reflexivity.
Qed.

Lemma artistTitle_more (output a r t rest : string) :
  Spec.cutFirst " - " output = Some (a, r) ->
  Spec.cutFirst " - " r = Some (t, rest) ->
  artistTitle output = (Some a, Some t).
Proof.
  intros H1 H2. unfold artistTitle.
  rewrite (split_cut " - " _ a r eq_refl H1), (split_cut " - " _ t rest eq_refl H2).
  reflexivity.
Qed.

(** [artist.split(",")[0]] is the text before the first comma. *)
Lemma beforeComma_cut (s : string) :
  beforeComma s
  = match Spec.cutFirst "," s with
    | Some (a, _) => a
    | None => s
    end.
Proof.
  unfold beforeComma.
  destruct (Spec.cutFirst "," s) as [[a b]|] eqn:E.
  - now rewrite (split_cut "," _ a b eq_refl E).
  - now rewrite (split_no_cut _ _ E).
Qed.

Lemma artistTitle_cut (output a r : string) :
  Spec.cutFirst " - " output = Some (a, r) ->
  exists t, artistTitle output = (Some a, Some t) /\ (r = "" -> t = "").
Proof.
  intro H. unfold artistTitle. rewrite (split_cut " - " _ a r eq_refl H).
  destruct (Spec.cutFirst " - " r) as [[t rest]|] eqn:E.
  - rewrite (split_cut " - " _ t rest eq_refl E). exists t. split; [reflexivity|].
    intros ->. discriminate.
  - rewrite (split_no_cut _ _ E). exists r. now split.
Qed.

(** Output the specification's rule cannot parse fails the adapters' test
    [artist && title]. *)
Lemma cliParse_None_falsy (stdout : string) :
  Spec.cliParse stdout = None ->
  let '(a, t) := artistTitle (JS.trim stdout) in
  JS.truthy a && JS.truthy t = false.
Proof.
  unfold Spec.cliParse.
  destruct (Spec.cutFirst " - " (JS.trim stdout)) as [[a r]|] eqn:E.
  - destruct (artistTitle_cut _ a r E) as (t & -> & Ht).
    destruct a as [|c a]; [reflexivity|].
    destruct r as [|d r]; [|discriminate].
    intros _. now rewrite Ht.
  - intros _. rewrite (artistTitle_none _ E). apply andb_false_r.
Qed.

(** ** The CLI adapters *)

(** C5, as the code has it: the Linux adapter trims the output and splits
    it on every [" - "]; the first two parts are artist and title and any
    later part is dropped.  With no separator the parse fails; with one, the
    two sides are artist and title; with more, the title is the text between
    the first and the second separator.  When both are non-empty the artist
    is the trimmed text before the first comma and the title loses one
    trailing hyphen and is trimmed.  So "Daft Punk, Pharrell - One More
    Time -" gives Daft Punk and One More Time, and "A - B - C" gives the
    title "B", from the Windows adapter too. *)
Theorem getLinuxMusic_parse :
  (forall stdout,
     Spec.cutFirst " - " (JS.trim stdout) = None ->
     getLinuxMusic (ExecOk stdout) = Rejected unableToParse)
  /\ (forall stdout a r,
        Spec.cutFirst " - " (JS.trim stdout) = Some (a, r) ->
        Spec.cutFirst " - " r = None ->
        getLinuxMusic (ExecOk stdout)
        = if JS.nonEmpty a && JS.nonEmpty r then
            Resolved (Some {| artist := JS.trim (beforeComma a);
                              title := JS.trim (JS.replaceTrailingHyphen r);
                              album := None |})
          else Rejected unableToParse)
  /\ (forall stdout a r t rest,
        Spec.cutFirst " - " (JS.trim stdout) = Some (a, r) ->
        Spec.cutFirst " - " r = Some (t, rest) ->
        getLinuxMusic (ExecOk stdout)
        = if JS.nonEmpty a && JS.nonEmpty t then
            Resolved (Some {| artist := JS.trim (beforeComma a);
                              title := JS.trim (JS.replaceTrailingHyphen t);
                              album := None |})
          else Rejected unableToParse)
  /\ (forall a,
        beforeComma a
        = match Spec.cutFirst "," a with Some (x, _) => x | None => a end)
  /\ getLinuxMusic (ExecOk "Daft Punk - One More Time")
     = Resolved (Some (mkMusicInfo "Daft Punk" "One More Time" None))
  /\ getLinuxMusic (ExecOk "Daft Punk, Pharrell - One More Time -")
     = Resolved (Some (mkMusicInfo "Daft Punk" "One More Time" None))
  /\ getLinuxMusic (ExecOk "A - B - C")
     = Resolved (Some (mkMusicInfo "A" "B" None))
  /\ getSpotifyMusicWindows (ExecOk "A - B - C")
     = Resolved (Some (mkMusicInfo "A" "B" None)).
Proof.
  split.
  { intros stdout H. unfold getLinuxMusic.
    now rewrite (artistTitle_none _ H), andb_false_r. }
  split.
  { intros stdout a r H1 H2. unfold getLinuxMusic.
    rewrite (artistTitle_one _ a r H1 H2). reflexivity. }
  split.
  { intros stdout a r t rest H1 H2. unfold getLinuxMusic.
    rewrite (artistTitle_more _ a r t rest H1 H2). reflexivity. }
  split; [exact beforeComma_cut|].
  repeat split.
Qed.

Lemma getLinuxMusic_parse_witness :
  getLinuxMusic (ExecOk "no separator here") = Rejected unableToParse
  /\ getLinuxMusic (ExecOk " Daft Punk, Pharrell - One More Time -")
     = Resolved (Some (mkMusicInfo "Daft Punk" "One More Time" None))
  /\ getLinuxMusic (ExecOk "A - B- - C")
     = Resolved (Some (mkMusicInfo "A" "B" None)).
Proof.
  destruct getLinuxMusic_parse as [H0 [H1 [H2 _]]].
  split; [apply H0; reflexivity|].
  split.
  - apply (H1 " Daft Punk, Pharrell - One More Time -"
              "Daft Punk, Pharrell" "One More Time -"); reflexivity.
  - apply (H2 "A - B- - C" "A" "B- - C" "B-" "C"); reflexivity.
Defined.

(** C5 as worded fails: on "A - B - C" the rule of the specification gives
    the title "B - C", the code gives "B". *)
Lemma getLinuxMusic_not_first_separator_only :
  ~ (forall stdout m,
       Spec.cliParse stdout = Some m ->
       getLinuxMusic (ExecOk stdout) = Resolved (Some m)).
Proof.
  intro H.
  specialize (H "A - B - C" (mkMusicInfo "A" "B - C" None) eq_refl).
  discriminate H.
Qed.

Lemma getSpotifyMusicWindows_resolves (r : ExecResult) :
  exists v, getSpotifyMusicWindows r = Resolved v.
Proof.
  unfold getSpotifyMusicWindows.
  destruct r as [|stdout]; [now eexists|].
  destruct (negb _); [now eexists|].
  destruct (artistTitle _) as [a t].
  destruct (_ && _); now eexists.
Qed.

Lemma getLinuxMusic_never_empty (r : ExecResult) :
  getLinuxMusic r <> Resolved None.
Proof.
  unfold getLinuxMusic.
  destruct r as [|stdout]; [discriminate|].
  destruct (artistTitle _) as [a t].
  destruct (_ && _); discriminate.
Qed.

(** C6, as the code has it.  The Windows adapter never rejects: a failed
    command, a blank output and an output the rule cannot parse all resolve
    to the empty result.  The Linux adapter never resolves to the empty
    result: a failed command is rejected with "An error occurred", and a
    blank output and an output the rule cannot parse are both rejected with
    "Unable to parse song information"; the two reasons differ, so there a
    failed command is told apart from a command that printed nothing. *)
Theorem cli_adapters_outcomes :
  (forall r, exists v, getSpotifyMusicWindows r = Resolved v)
  /\ getSpotifyMusicWindows ExecError = Resolved None
  /\ (forall stdout, JS.trim stdout = "" ->
        getSpotifyMusicWindows (ExecOk stdout) = Resolved None)
  /\ (forall stdout, Spec.cliParse stdout = None ->
        getSpotifyMusicWindows (ExecOk stdout) = Resolved None)
  /\ (forall r, getLinuxMusic r <> Resolved None)
  /\ getLinuxMusic ExecError = Rejected anErrorOccurred
  /\ (forall stdout, JS.trim stdout = "" ->
        getLinuxMusic (ExecOk stdout) = Rejected unableToParse)
  /\ (forall stdout, Spec.cliParse stdout = None ->
        getLinuxMusic (ExecOk stdout) = Rejected unableToParse)
  /\ anErrorOccurred <> unableToParse.
Proof.
  split; [exact getSpotifyMusicWindows_resolves|].
  split; [reflexivity|].
  split.
  { intros stdout H. unfold getSpotifyMusicWindows. now rewrite H. }
  split.
  { intros stdout H. apply cliParse_None_falsy in H.
    unfold getSpotifyMusicWindows.
    destruct (negb _); [reflexivity|].
    destruct (artistTitle _) as [a t]. now rewrite H. }
  split; [exact getLinuxMusic_never_empty|].
  split; [reflexivity|].
  split.
  { intros stdout H. unfold getLinuxMusic. now rewrite H. }
  split.
  { intros stdout H. apply cliParse_None_falsy in H.
    unfold getLinuxMusic.
    destruct (artistTitle _) as [a t]. now rewrite H. }
  discriminate.
Qed.

Lemma cli_adapters_outcomes_witness :
  getSpotifyMusicWindows (ExecOk "   ") = Resolved None
  /\ getSpotifyMusicWindows (ExecOk "Daft Punk") = Resolved None
  /\ getLinuxMusic (ExecOk "   ") = Rejected unableToParse
  /\ getLinuxMusic (ExecOk "Daft Punk") = Rejected unableToParse.
Proof.
  destruct cli_adapters_outcomes as [_ [_ [H1 [H2 [_ [_ [H3 [H4 _]]]]]]]].
  split; [apply H1; reflexivity|].
  split; [apply H2; reflexivity|].
  split; [apply H3; reflexivity|].
  apply H4; reflexivity.
Defined.

(** C6 as worded fails for both adapters: the Linux adapter rejects a blank
    output instead of resolving to the empty result, and the Windows adapter
    resolves an unparsable output, and a failed command, to the empty
    result. *)
Lemma cli_adapters_do_not_distinguish :
  ~ Spec.distinguishesOutcomes getLinuxMusic
  /\ ~ Spec.distinguishesOutcomes getSpotifyMusicWindows.
Proof.
  split.
  - intros [H _]. specialize (H "" eq_refl). discriminate H.
  - intros [_ [_ H]]. apply (H "" eq_refl). reflexivity.
Qed.

(** ** The browser title adapter *)

Lemma getMacOSMusic_never_empty (r : ExecResult) :
  getMacOSMusic r <> Resolved None.
Proof.
  unfold getMacOSMusic.
  destruct r as [|stdout]; [discriminate|].
  destruct (2 <=? _)%nat; discriminate.
Qed.

(** C7, as the code has it: the browser adapter trims the tab title and
    splits it on every [" - "]; with at least two parts the first is the
    title and the second the artist, both trimmed, the order being the
    reverse of the CLI adapters', and any later part is dropped: the artist
    is the text between the first and the second separator.  With fewer than
    two parts, that is when the trimmed title has no separator, and when the
    command fails, the promise is rejected; it never resolves to the empty
    result. *)
Theorem getMacOSMusic_parse :
  (forall stdout,
     Spec.cutFirst " - " (JS.trim stdout) = None ->
     getMacOSMusic (ExecOk stdout) = Rejected unableToParse)
  /\ (forall stdout t r,
        Spec.cutFirst " - " (JS.trim stdout) = Some (t, r) ->
        Spec.cutFirst " - " r = None ->
        getMacOSMusic (ExecOk stdout)
        = Resolved (Some {| artist := JS.trim r; title := JS.trim t; album := None |}))
  /\ (forall stdout t r a rest,
        Spec.cutFirst " - " (JS.trim stdout) = Some (t, r) ->
        Spec.cutFirst " - " r = Some (a, rest) ->
        getMacOSMusic (ExecOk stdout)
        = Resolved (Some {| artist := JS.trim a; title := JS.trim t; album := None |}))
  /\ (forall r, getMacOSMusic r <> Resolved None)
  /\ getMacOSMusic ExecError = Rejected anErrorOccurred
  /\ getMacOSMusic (ExecOk "One More Time - Daft Punk")
     = Resolved (Some (mkMusicInfo "Daft Punk" "One More Time" None))
  /\ getLinuxMusic (ExecOk "One More Time - Daft Punk")
     = Resolved (Some (mkMusicInfo "One More Time" "Daft Punk" None)).
Proof.
  split.
  { intros stdout H. unfold getMacOSMusic.
    now rewrite (split_no_cut _ _ H). }
  split.
  { intros stdout t r H1 H2. unfold getMacOSMusic.
    rewrite (split_cut " - " _ t r eq_refl H1), (split_no_cut _ _ H2).
    reflexivity. }
  split.
  { intros stdout t r a rest H1 H2. unfold getMacOSMusic.
    rewrite (split_cut " - " _ t r eq_refl H1), (split_cut " - " _ a rest eq_refl H2).
    reflexivity. }
  split; [exact getMacOSMusic_never_empty|].
  repeat split.
Qed.

Lemma getMacOSMusic_parse_witness :
  getMacOSMusic (ExecOk "Deezer") = Rejected unableToParse
  /\ getMacOSMusic (ExecOk "One More Time - Daft Punk  ")
     = Resolved (Some (mkMusicInfo "Daft Punk" "One More Time" None))
  /\ getMacOSMusic (ExecOk "One More Time - Daft Punk - Deezer")
     = Resolved (Some (mkMusicInfo "Daft Punk" "One More Time" None)).
Proof.
  destruct getMacOSMusic_parse as [H0 [H1 [H2 _]]].
  split; [apply H0; reflexivity|].
  split.
  - apply (H1 "One More Time - Daft Punk  " "One More Time" "Daft Punk");
      reflexivity.
  - apply (H2 "One More Time - Daft Punk - Deezer"
              "One More Time" "Daft Punk - Deezer" "Daft Punk" "Deezer");
      reflexivity.
Defined.

(** C7 as worded fails: splitting on the first separator only, the tab
    title "One More Time - Daft Punk - Deezer" has the artist "Daft Punk -
    Deezer"; the code gives "Daft Punk". *)
Lemma getMacOSMusic_not_first_separator_only :
  ~ (forall stdout m,
       Spec.browserParse stdout = Some m ->
       getMacOSMusic (ExecOk stdout) = Resolved (Some m)).
Proof.
  intro H.
  specialize (H "One More Time - Daft Punk - Deezer"
                (mkMusicInfo "Daft Punk - Deezer" "One More Time" None) eq_refl).
  discriminate H.
Qed.

(** ** The Windows fallback *)

Lemma getDeezerMusic_resolves (env : Platform) (sv : Server) :
  exists v, fst (getDeezerMusic env sv) = Resolved v.
Proof.
  unfold getDeezerMusic.
  destruct (deezerMonitor sv) as [m|].
  - destruct (getCurrentMusic _ _ m) as [music m']. now eexists.
  - destruct (constructOk env); [|now eexists].
    destruct (getCurrentMusic _ _ _) as [music m']. now eexists.
Qed.

Lemma getDeezerMusic_spawns_nothing (env : Platform) (sv : Server) :
  spawned (snd (getDeezerMusic env sv)) = spawned sv.
Proof.
  unfold getDeezerMusic.
  destruct (deezerMonitor sv) as [m|].
  - now destruct (getCurrentMusic _ _ m).
  - destruct (constructOk env); [|reflexivity].
    now destruct (getCurrentMusic _ _ _).
Qed.

(** C8: [getWindowsMusic] asks the native adapter first.  A record from it
    is the result, and [playerctl] is not launched.  When it yields nothing,
    [playerctl] is launched once and the result is the CLI adapter's: its
    record when it has one (the output "A - B" gives artist "A" and title
    "B"), the empty result otherwise.  The promise is never rejected. *)
Theorem getWindowsMusic_fallback (env : Platform) (sv : Server) :
  let native := fst (getDeezerMusic env sv) in
  let sv1 := snd (getDeezerMusic env sv) in
  (forall musicInfo,
     native = Resolved (Some musicInfo) ->
     getWindowsMusic env sv = (Resolved (Some musicInfo), sv1)
     /\ spawned (snd (getWindowsMusic env sv)) = spawned sv)
  /\ (native = Resolved None ->
      getWindowsMusic env sv
      = (getSpotifyMusicWindows (execResult env), spawn Playerctl sv1)
      /\ spawned (snd (getWindowsMusic env sv)) = Playerctl :: spawned sv)
  /\ (native = Resolved None ->
      execResult env = ExecOk "A - B" ->
      fst (getWindowsMusic env sv) = Resolved (Some (mkMusicInfo "A" "B" None)))
  /\ (native = Resolved None ->
      getSpotifyMusicWindows (execResult env) = Resolved None ->
      fst (getWindowsMusic env sv) = Resolved None)
  /\ (exists v, fst (getWindowsMusic env sv) = Resolved v).
Proof.
  intros native sv1.
  pose proof (getDeezerMusic_spawns_nothing env sv) as Hsp.
  fold sv1 in Hsp.
  assert (Hnone : native = Resolved None ->
            getWindowsMusic env sv
            = (getSpotifyMusicWindows (execResult env), spawn Playerctl sv1)).
  { intro H. unfold getWindowsMusic. subst native sv1.
    destruct (getDeezerMusic env sv) as [r1 s1]. simpl in *. subst r1.
    destruct (getSpotifyMusicWindows_resolves (execResult env)) as [[v|] ->];
      reflexivity. }
  assert (Hsome : forall musicInfo, native = Resolved (Some musicInfo) ->
            getWindowsMusic env sv = (Resolved (Some musicInfo), sv1)).
  { intros musicInfo H. unfold getWindowsMusic. subst native sv1.
    destruct (getDeezerMusic env sv) as [r1 s1]. simpl in *. now subst r1. }
  split.
  { intros musicInfo H. rewrite (Hsome _ H). now split. }
  split.
  { intro H. rewrite (Hnone H). split; [reflexivity|]. simpl. now rewrite Hsp. }
  split.
  { intros H E. rewrite (Hnone H), E. reflexivity. }
  split.
  { intros H E. rewrite (Hnone H), E. reflexivity. }
  destruct (getDeezerMusic_resolves env sv) as [[v|] Hv]; fold native in Hv.
  - rewrite (Hsome _ Hv). now eexists.
  - rewrite (Hnone Hv).
    destruct (getSpotifyMusicWindows_resolves (execResult env)) as [w ->].
    now eexists.
Qed.

Lemma getWindowsMusic_fallback_witness :
  fst (getWindowsMusic (mkPlatform true true [] (ExecOk "A - B")) (mkServer None []))
  = Resolved (Some (mkMusicInfo "A" "B" None))
  /\ spawned (snd (getWindowsMusic
                     (mkPlatform true true [mediaSession "A" "T" "X"] (ExecOk "C - D"))
                     (mkServer None [])))
     = []
  /\ fst (getWindowsMusic (mkPlatform true true [] ExecError) (mkServer None []))
     = Resolved None.
Proof.
  split.
  - destruct (getWindowsMusic_fallback
                (mkPlatform true true [] (ExecOk "A - B")) (mkServer None []))
      as [_ [_ [H _]]].
    apply H; reflexivity.
  - split.
    + destruct (getWindowsMusic_fallback
                  (mkPlatform true true [mediaSession "A" "T" "X"] (ExecOk "C - D"))
                  (mkServer None []))
        as [H _].
      apply (H (mkMusicInfo "A" "T" (Some "X"))). reflexivity.
    + destruct (getWindowsMusic_fallback
                  (mkPlatform true true [] ExecError) (mkServer None []))
        as [_ [_ [_ [H _]]]].
      apply H; reflexivity.
Defined.

(* ================================================================== *)
(** * Further properties of the monitor *)

Lemma hasChanged_false (previous : option MusicInfo) (mi : MusicInfo) :
  hasChanged previous mi = false -> previous = Some mi.
Proof.
  destruct previous as [cur|]; [|discriminate].
  unfold hasChanged. intro H.
  apply orb_false_elim in H as [H Hal].
  apply orb_false_elim in H as [Ha Ht].
  apply negb_false_iff, String.eqb_eq in Ha.
  apply negb_false_iff, String.eqb_eq in Ht.
  apply strictNeq_false in Hal.
  destruct cur, mi; simpl in *; now subst.
Qed.

Lemma hasChanged_refl (mi : MusicInfo) : hasChanged (Some mi) mi = false.
Proof.
  rewrite hasChanged_same_track by reflexivity. now apply strictNeq_false.
Qed.

(** Storing a record when the detector says so always ends with that record
    stored. *)
Lemma stored_after_update (mi : MusicInfo) (st : DeezerMusicMonitor) :
  currentMusic (if hasMusicChanged mi st then setCurrentMusic (Some mi) st else st)
  = Some mi.
Proof.
  unfold hasMusicChanged.
  destruct (hasChanged (currentMusic st) mi) eqn:E; [reflexivity|].
  now apply hasChanged_false.
Qed.

Lemma getCurrentMusic_first_media
  (ok : bool) (s : Session.t) (rest : list Session.t)
  (st : DeezerMusicMonitor) (media : Media.t) :
  Session.media s = Some media ->
  fst (getCurrentMusic ok (s :: rest) st) = Some (fromMediaAlbumTitle media).
Proof.
  intro Hmedia. unfold getCurrentMusic. simpl. rewrite Hmedia.
  apply stored_after_update.
Qed.

Lemma extractMusicInfo_media_stored
  (s : Session.t) (st : DeezerMusicMonitor) (media : Media.t) :
  Session.media s = Some media ->
  currentMusic (extractMusicInfo s st) = Some (fromMedia media).
Proof.
  intro Hmedia. unfold extractMusicInfo.
  rewrite (probe_media s st media Hmedia). unfold hasMusicChanged.
  destruct (hasChanged (currentMusic st) (fromMedia media)) eqn:E.
  - now rewrite currentMusic_logMusicChange.
  - now apply hasChanged_false.
Qed.

Lemma isMusicPlaying_no_session (ok : bool) (st : DeezerMusicMonitor) :
  fst (isMusicPlaying ok [] st) = false.
Proof. unfold isMusicPlaying, getCurrentSession. now destruct (negb _). Qed.

Lemma currentMusic_isMusicPlaying (ok : bool) (ss : list Session.t)
  (st : DeezerMusicMonitor) :
  currentMusic (snd (isMusicPlaying ok ss st)) = currentMusic st.
Proof.
  unfold isMusicPlaying, getCurrentSession.
  destruct ss as [|s rest]; destruct (isInitialized st); simpl;
    rewrite ?currentMusic_start; reflexivity.
Qed.

(** X1: when the first session has a media object, [getCurrentMusic]
    returns the record of that object (artist, title, [albumTitle], each
    defaulted to the empty string), whatever was stored before and whether
    or not the detector reported a change; the other sessions play no part. *)
Theorem getCurrentMusic_reports_first_media
  (ok : bool) (s : Session.t) (rest : list Session.t)
  (st : DeezerMusicMonitor) (media : Media.t)
  (Hmedia : Session.media s = Some media) :
  fst (getCurrentMusic ok (s :: rest) st) = Some (fromMediaAlbumTitle media).
Proof.
  unfold getCurrentMusic. simpl. rewrite Hmedia. apply stored_after_update.
Qed.

Lemma getCurrentMusic_reports_first_media_witness :
  fst (getCurrentMusic false [mediaSession "" "" ""; timelineSession 1]
         (setCurrentMusic (Some (mkMusicInfo "A" "T" (Some "X"))) newMonitor))
  = Some (mkMusicInfo "" "" (Some "")).
Proof.
  apply (getCurrentMusic_reports_first_media false (mediaSession "" "" "")
           [timelineSession 1]
           (setCurrentMusic (Some (mkMusicInfo "A" "T" (Some "X"))) newMonitor)
           (Media.mk (Some "") (Some "") None (Some ""))).
  reflexivity.
Defined.

(** X2: on an initialized monitor [getCurrentMusic] has no outside effect:
    it prints nothing and calls nothing, even when it replaces the stored
    track, and it leaves the monitor initialized; a second poll of the same
    sessions returns the same value and changes nothing. *)
Theorem getCurrentMusic_silent_and_stable
  (ok ok' : bool) (ss : list Session.t) (st : DeezerMusicMonitor)
  (Hinit : isInitialized st = true) :
  trace (snd (getCurrentMusic ok ss st)) = trace st
  /\ isInitialized (snd (getCurrentMusic ok ss st)) = true
  /\ getCurrentMusic ok' ss (snd (getCurrentMusic ok ss st))
     = getCurrentMusic ok ss st.
Proof.
  unfold getCurrentMusic. rewrite Hinit. simpl.
  destruct ss as [|s rest]; [now rewrite Hinit|].
  destruct (Session.media s) as [media|]; [|now rewrite Hinit].
  generalize (fromMediaAlbumTitle media). intro mi.
  destruct (hasMusicChanged mi st) eqn:E; cbn [snd fst]; rewrite ?Hinit.
  - change (isInitialized (setCurrentMusic (Some mi) st)) with (isInitialized st).
    rewrite Hinit. cbn [negb].
    change (hasMusicChanged mi (setCurrentMusic (Some mi) st))
      with (hasChanged (Some mi) mi).
    rewrite hasChanged_refl. now repeat split.
  - cbn [negb]. rewrite E. now repeat split.
Qed.

Lemma getCurrentMusic_silent_and_stable_witness :
  trace (snd (getCurrentMusic false [mediaSession "A" "T" "X"] (start true newMonitor)))
  = trace (start true newMonitor).
Proof.
  apply (getCurrentMusic_silent_and_stable false false
           [mediaSession "A" "T" "X"] (start true newMonitor)).
  reflexivity.
Defined.

(** X3: a snapshot with a media object, or else with a direct artist or
    title, always leaves its normalized record stored, whether the detector
    fired or not; when that record was already the stored one the snapshot
    changes nothing and prints nothing; so normalizing the same snapshot
    twice is the same as normalizing it once. *)
Theorem extractMusicInfo_stores_latest
  (s : Session.t) (st : DeezerMusicMonitor)
  (Hrule : Session.media s <> None
           \/ JS.truthy (Session.artist s) || JS.truthy (Session.title s) = true) :
  let mi := match Session.media s with
            | Some media => fromMedia media
            | None => fromDirect s
            end in
  currentMusic (extractMusicInfo s st) = Some mi
  /\ (currentMusic st = Some mi -> extractMusicInfo s st = st)
  /\ extractMusicInfo s (extractMusicInfo s st) = extractMusicInfo s st.
Proof.
  intro mi.
  assert (Hp : forall st', probe s st' = (Some mi, st')).
  { intro st'. subst mi. unfold probe.
    destruct (Session.media s) as [media|]; [reflexivity|].
    destruct Hrule as [H|H]; [contradiction|]. now rewrite H. }
  assert (Hcur : forall st', currentMusic (extractMusicInfo s st') = Some mi).
  { intro st'. unfold extractMusicInfo. rewrite Hp. unfold hasMusicChanged.
    destruct (hasChanged (currentMusic st') mi) eqn:E.
    - now rewrite currentMusic_logMusicChange.
    - now apply hasChanged_false. }
  assert (Hsame : forall st', currentMusic st' = Some mi -> extractMusicInfo s st' = st').
  { intros st' H. unfold extractMusicInfo. rewrite Hp.
    unfold hasMusicChanged. now rewrite H, hasChanged_refl. }
  split; [apply Hcur|]. split; [apply Hsame|].
  apply Hsame, Hcur.
Qed.

Lemma extractMusicInfo_stores_latest_witness :
  currentMusic
    (extractMusicInfo (Session.mk None (Some "A") None None None None)
       (setCurrentMusic (Some (mkMusicInfo "B" "T" (Some ""))) newMonitor))
  = Some (mkMusicInfo "A" "" (Some "")).
Proof.
  destruct (extractMusicInfo_stores_latest
              (Session.mk None (Some "A") None None None None)
              (setCurrentMusic (Some (mkMusicInfo "B" "T" (Some ""))) newMonitor))
    as [H _].
  - right. reflexivity.
  - exact H.
Defined.

(** X4: an event whose status is processed and is not 0 (Playing, Paused or
    an unknown code) leaves the stored track exactly as it was, and the
    status becomes the playback state; only status 0 clears the track. *)
Theorem nonzero_status_keeps_track
  (payload s : Session.t) (rest : list Session.t) (st : DeezerMusicMonitor)
  (code : Z)
  (Hstatus : processedStatus s = Some code) (Hcode : code <> 0%Z) :
  currentMusic (onCurrentSessionChanged payload (s :: rest) st) = currentMusic st
  /\ playbackState (onCurrentSessionChanged payload (s :: rest) st)
     = Some (statusOf code)
  /\ statusOf code <> Stopped.
Proof.
  unfold onCurrentSessionChanged, checkCurrentMusic.
  set (st1 := console (SessaoAtual s) (console (SessaoMudou payload) st)).
  destruct (extractMusicInfo_processed s st1 code Hstatus) as (d & p & ->).
  split.
  { rewrite currentMusic_handlePlaybackStatus.
    destruct (Z.eqb_spec code 0); [contradiction|reflexivity]. }
  split; [apply playbackState_handlePlaybackStatus|].
  unfold statusOf. destruct code as [|[q|[q|q|]|]|q]; try discriminate.
  contradiction.
Qed.

Lemma nonzero_status_keeps_track_witness :
  currentMusic
    (onCurrentSessionChanged noSession [timelineSession 2]
       (setCurrentMusic (Some (mkMusicInfo "A" "T" (Some ""))) newMonitor))
  = Some (mkMusicInfo "A" "T" (Some "")).
Proof.
  destruct (nonzero_status_keeps_track noSession (timelineSession 2) []
              (setCurrentMusic (Some (mkMusicInfo "A" "T" (Some ""))) newMonitor)
              2%Z eq_refl) as [H _].
  - discriminate.
  - exact H.
Defined.

(** What [extractMusicInfo] stores depends on the state through the stored
    track only. *)
Lemma currentMusic_extractMusicInfo_congr (s : Session.t)
  (st1 st2 : DeezerMusicMonitor) :
  currentMusic st1 = currentMusic st2 ->
  currentMusic (extractMusicInfo s st1) = currentMusic (extractMusicInfo s st2).
Proof.
  intro E.
  assert (Hrec : forall mi,
            currentMusic (if hasMusicChanged mi st1
                          then logMusicChange NovaMusicaDetectada (Some mi)
                                 (setCurrentMusic (Some mi) st1)
                          else st1)
            = currentMusic (if hasMusicChanged mi st2
                            then logMusicChange NovaMusicaDetectada (Some mi)
                                   (setCurrentMusic (Some mi) st2)
                            else st2)).
  { intro mi. unfold hasMusicChanged. rewrite E.
    destruct (hasChanged (currentMusic st2) mi);
      [now rewrite !currentMusic_logMusicChange|exact E]. }
  unfold extractMusicInfo, probe.
  destruct (Session.media s) as [m|]; [apply Hrec|].
  destruct (_ || _); [apply Hrec|].
  destruct (Session.timeline s) as [tl|]; [|exact E].
  destruct (0 <? Timeline.duration tl)%Z; [|exact E].
  destruct (Session.playback s) as [pb|]; [|exact E].
  rewrite !currentMusic_handlePlaybackStatus.
  destruct (_ =? 0)%Z; [reflexivity|exact E].
Qed.

(** X5: session events never touch the lifecycle.  Along any sequence of
    ['current-session-changed'] events, whatever the snapshots and the
    statuses they carry, [_initialize] and [destroy] are not called and
    [isInitialized] keeps its value; the events are handled the same way
    whether or not the monitor was started. *)
Theorem events_leave_lifecycle
  (events : list (Session.t * list Session.t)) (st : DeezerMusicMonitor) :
  lifecycle (run (map (fun e => SessionChanged (fst e) (snd e)) events) st)
  = lifecycle st
  /\ currentMusic (run (map (fun e => SessionChanged (fst e) (snd e)) events) st)
     = currentMusic
         (run (map (fun e => SessionChanged (fst e) (snd e)) events)
            (setInitialized (negb (isInitialized st)) st)).
Proof.
  split.
  - revert st. induction events as [|[payload ss] events IH]; intro st;
      [reflexivity|].
    unfold run in *. simpl. rewrite IH.
    apply lifecycle_onCurrentSessionChanged.
  - generalize (negb (isInitialized st)). intro b.
    assert (H : forall st1 st2,
              currentMusic st1 = currentMusic st2 ->
              currentMusic (run (map (fun e => SessionChanged (fst e) (snd e)) events) st1)
              = currentMusic (run (map (fun e => SessionChanged (fst e) (snd e)) events) st2)).
    { induction events as [|[payload ss] events IH]; intros st1 st2 E; [exact E|].
      unfold run in *. simpl. apply IH.
      unfold onCurrentSessionChanged, checkCurrentMusic.
      destruct ss as [|s rest]; [exact E|].
      apply currentMusic_extractMusicInfo_congr. exact E. }
    apply H. reflexivity.
Qed.



(** X7: [isMusicPlaying] answers from the first session alone: false when
    there is no session, the same answer whatever the monitor has stored,
    and the stored track untouched.  When it answers true for a snapshot
    without a timeline of positive duration, [getCurrentMusic] on the same
    sessions returns a record whose artist and title are both non-empty. *)
Theorem isMusicPlaying_consistent
  (ok ok' : bool) (ss : list Session.t) (st st' : DeezerMusicMonitor) :
  fst (isMusicPlaying ok [] st) = false
  /\ currentMusic (snd (isMusicPlaying ok ss st)) = currentMusic st
  /\ fst (isMusicPlaying ok ss st) = fst (isMusicPlaying ok' ss st')
  /\ (forall s rest,
        ss = s :: rest ->
        fst (isMusicPlaying ok ss st) = true ->
        match Session.timeline s with
        | Some tl => (0 <? Timeline.duration tl)%Z = false
        | None => True
        end ->
        exists m,
          fst (getCurrentMusic ok' ss st') = Some m
          /\ JS.nonEmpty (artist m) = true /\ JS.nonEmpty (title m) = true).
Proof.
  split; [unfold isMusicPlaying, getCurrentSession; now destruct (negb _)|].
  split.
  { unfold isMusicPlaying, getCurrentSession.
    destruct ss as [|s rest]; destruct (isInitialized st); simpl;
      rewrite ?currentMusic_start; reflexivity. }
  split; [unfold isMusicPlaying, getCurrentSession; now destruct ss|].
  intros s rest -> Hplay Htl.
  unfold isMusicPlaying, getCurrentSession in Hplay. simpl in Hplay.
  destruct (Session.media s) as [media|] eqn:Hm.
  - exists (fromMediaAlbumTitle media).
    split; [now apply getCurrentMusic_first_media|].
    assert (Hby : JS.truthy (Media.title media) && JS.truthy (Media.artist media) = true).
    { destruct (Session.timeline s) as [tl|]; [rewrite Htl in Hplay|];
        now rewrite orb_false_r in Hplay. }
    apply andb_true_iff in Hby as [Ht Ha]. simpl.
    destruct (Media.artist media) as [a|]; [|discriminate].
    destruct (Media.title media) as [t|]; [|discriminate].
    now split.
  - destruct (Session.timeline s) as [tl|]; [rewrite Htl in Hplay|];
      discriminate.
Qed.

Lemma isMusicPlaying_consistent_witness :
  exists m,
    fst (getCurrentMusic true [mediaSession "A" "T" ""] newMonitor) = Some m
    /\ JS.nonEmpty (artist m) = true /\ JS.nonEmpty (title m) = true.
Proof.
  destruct (isMusicPlaying_consistent true true [mediaSession "A" "T" ""]
              newMonitor newMonitor) as [_ [_ [_ H]]].
  apply (H (mediaSession "A" "T" "") []); reflexivity.
Defined.


(* ================================================================== *)
(** * Further properties of the adapters *)

(** ** Trimming *)

Lemma trimStart_length (s : string) :
  String.length (JS.trimStart s) <= String.length s.
Proof.
  induction s as [|c s IH]; [reflexivity|].
  simpl. destruct (JS.isWhiteSpace c); simpl; lia.
Qed.

Lemma trimStart_fixed (s : string) :
  JS.trimStart (JS.trimStart s) = JS.trimStart s.
Proof.
  induction s as [|c s IH]; [reflexivity|].
  simpl. destruct (JS.isWhiteSpace c) eqn:E; [exact IH|].
  simpl. now rewrite E.
Qed.

Lemma trimStart_trimEnd (s : string) :
  JS.trimStart s = s -> JS.trimStart (JS.trimEnd s) = JS.trimEnd s.
Proof.
  destruct s as [|c s]; [reflexivity|].
  simpl. destruct (JS.isWhiteSpace c) eqn:E.
  - intro H. pose proof (trimStart_length s) as L.
    rewrite H in L. simpl in L. lia.
  - intros _. simpl. now rewrite E.
Qed.

Lemma trimEnd_fixed (s : string) : JS.trimEnd (JS.trimEnd s) = JS.trimEnd s.
Proof.
  induction s as [|c s IH]; [reflexivity|].
  simpl. destruct (JS.isWhiteSpace c && negb (JS.nonEmpty (JS.trimEnd s))) eqn:E;
    [reflexivity|].
  simpl. now rewrite IH, E.
Qed.

(** Trimming twice is trimming once. *)
Lemma trim_trimmed (s : string) : trimmed (JS.trim s).
Proof.
  unfold trimmed, JS.trim.
  rewrite (trimStart_trimEnd (JS.trimStart s) (trimStart_fixed s)).
  apply trimEnd_fixed.
Qed.

Lemma trimStart_suffix (s : string) :
  exists x, s = (x ++ JS.trimStart s)%string.
Proof.
  induction s as [|c s [x IH]]; [now exists ""|].
  simpl. destruct (JS.isWhiteSpace c).
  - exists (String c x). simpl. now rewrite <- IH.
  - now exists "".
Qed.

Lemma trimEnd_prefix (s : string) :
  exists y, s = (JS.trimEnd s ++ y)%string.
Proof.
  induction s as [|c s [y IH]]; [now exists ""|].
  simpl. destruct (JS.isWhiteSpace c && negb (JS.nonEmpty (JS.trimEnd s))).
  - now exists (String c s).
  - exists y. simpl. now rewrite <- IH.
Qed.

Lemma replaceTrailingHyphen_prefix (s : string) :
  exists y, s = (JS.replaceTrailingHyphen s ++ y)%string.
Proof.
  induction s as [|c s IH]; [now exists ""|].
  destruct s as [|d s].
  - simpl. destruct (Ascii.eqb c "-"); [now exists (String c "")|now exists ""].
  - destruct IH as [y IH]. exists y.
    change (JS.replaceTrailingHyphen (String c (String d s)))
      with (String c (JS.replaceTrailingHyphen (String d s))).
    cbn [append]. now rewrite <- IH.
Qed.

(** ** Occurrences *)

Lemma prefix_app_r (p x y : string) :
  prefix p x = true -> prefix p (x ++ y)%string = true.
Proof.
  revert x. induction p as [|c p IH]; intros x H;
    [now destruct (x ++ y)%string|].
  destruct x as [|d x]; [discriminate|]. simpl in *.
  destruct (ascii_dec c d); [now apply IH|discriminate].
Qed.

Lemma occurs_empty (sep : string) :
  JS.nonEmpty sep = true -> occurs sep "" = false.
Proof. now destruct sep. Qed.

Lemma occurs_app_l (sep x y : string) :
  JS.nonEmpty sep = true ->
  occurs sep (x ++ y)%string = false -> occurs sep x = false.
Proof.
  intro Hsep. induction x as [|c x IH]; intro H; [now apply occurs_empty|].
  cbn [occurs append] in *. apply orb_false_elim in H as [P O].
  rewrite (IH O), orb_false_r.
  destruct (prefix sep (String c x)) eqn:E; [|reflexivity].
  apply (prefix_app_r _ _ y) in E. cbn [append] in E. congruence.
Qed.

Lemma occurs_app_r (sep x y : string) :
  occurs sep (x ++ y)%string = false -> occurs sep y = false.
Proof.
  induction x as [|c x IH]; intro H; [exact H|].
  cbn [occurs append] in H. apply orb_false_elim in H as [_ O]. now apply IH.
Qed.

Lemma occurs_trim (sep s : string) :
  JS.nonEmpty sep = true ->
  occurs sep s = false -> occurs sep (JS.trim s) = false.
Proof.
  intros Hsep H. unfold JS.trim.
  destruct (trimStart_suffix s) as [x Ex].
  rewrite Ex in H. apply occurs_app_r in H.
  destruct (trimEnd_prefix (JS.trimStart s)) as [y Ey].
  rewrite Ey in H. now apply occurs_app_l in H.
Qed.

Lemma occurs_replaceTrailingHyphen (sep s : string) :
  JS.nonEmpty sep = true ->
  occurs sep s = false -> occurs sep (JS.replaceTrailingHyphen s) = false.
Proof.
  intros Hsep H.
  destruct (replaceTrailingHyphen_prefix s) as [y Ey].
  rewrite Ey in H. now apply occurs_app_l in H.
Qed.

(** The scan of [split]: the part under construction is a prefix of what is
    left to scan, and the separator occurs in no part. *)
Lemma splitFrom_parts (sep : string) (Hsep : JS.nonEmpty sep = true)
  (s : string) :
  forall k,
    (exists y, JS.slice k s = (fst (JS.splitFrom sep k s) ++ y)%string)
    /\ occurs sep (fst (JS.splitFrom sep k s)) = false
    /\ Forall (fun x => occurs sep x = false) (snd (JS.splitFrom sep k s)).
Proof.
  induction s as [|c s IH]; intro k.
  - simpl. split; [exists ""; now destruct k|].
    split; [now apply occurs_empty|constructor].
  - destruct k as [|k]; [|exact (IH k)].
    cbn [JS.splitFrom JS.slice].
    destruct (prefix sep (String c s)) eqn:P.
    + destruct (IH (Nat.pred (String.length sep))) as (_ & Hp & Hps).
      destruct (JS.splitFrom sep (Nat.pred (String.length sep)) s) as [p ps].
      cbn [fst snd] in *. split; [now exists (String c s)|].
      split; [now apply occurs_empty|now constructor].
    + destruct (IH 0) as ([y Hy] & Hp & Hps).
      destruct (JS.splitFrom sep 0 s) as [p ps].
      cbn [fst snd JS.slice] in *.
      split; [exists y; cbn [append]; now rewrite <- Hy|].
      split; [|exact Hps].
      cbn [occurs]. rewrite Hp, orb_false_r.
      destruct (prefix sep (String c p)) eqn:E; [|reflexivity].
      apply (prefix_app_r _ _ y) in E. cbn [append] in E.
      rewrite <- Hy in E. congruence.
Qed.

Lemma split_parts (sep s : string) :
  JS.nonEmpty sep = true ->
  Forall (fun x => occurs sep x = false) (JS.split sep s).
Proof.
  intro Hsep. destruct (splitFrom_parts sep Hsep s 0) as (_ & Hp & Hps).
  unfold JS.split. destruct (JS.splitFrom sep 0 s). now constructor.
Qed.

Lemma split_head_prefix (sep s : string) :
  JS.nonEmpty sep = true ->
  exists p ps y, JS.split sep s = p :: ps /\ s = (p ++ y)%string.
Proof.
  intro Hsep. destruct (splitFrom_parts sep Hsep s 0) as ([y Hy] & _).
  unfold JS.split. destruct (JS.splitFrom sep 0 s) as [p ps].
  now exists p, ps, y.
Qed.

Lemma at_split_free (sep s x : string) (i : nat) :
  JS.nonEmpty sep = true ->
  JS.at_ (JS.split sep s) i = Some x -> occurs sep x = false.
Proof.
  intros Hsep H. apply nth_error_In in H.
  pose proof (split_parts sep s Hsep) as F.
  rewrite Forall_forall in F. now apply F.
Qed.

Lemma beforeComma_prefix (s : string) :
  exists y, s = (beforeComma s ++ y)%string.
Proof.
  unfold beforeComma.
  destruct (split_head_prefix "," s eq_refl) as (p & ps & y & -> & E).
  now exists y.
Qed.

Lemma beforeComma_free (s : string) : occurs "," (beforeComma s) = false.
Proof.
  unfold beforeComma.
  destruct (JS.at_ (JS.split "," s) 0) as [x|] eqn:E; [|reflexivity].
  now apply (at_split_free "," s x 0).
Qed.

(** ** What the adapters return *)

Lemma append_empty_r (s : string) : (s ++ "")%string = s.
Proof. induction s as [|c s IH]; [reflexivity|]. simpl. now rewrite IH. Qed.

(** The three adapters build their record from two elements of
    [output.split(" - ")], cleaned and trimmed. *)
Lemma adapter_record_shape (r : ExecResult) (m : MusicInfo) :
  getSpotifyMusicWindows r = Resolved (Some m)
  \/ getLinuxMusic r = Resolved (Some m)
  \/ getMacOSMusic r = Resolved (Some m) ->
  exists output i j x y cleanX cleanY,
    JS.at_ (JS.split " - " output) i = Some x
    /\ JS.at_ (JS.split " - " output) j = Some y
    /\ (exists x', x = (cleanX ++ x')%string)
    /\ (exists y', y = (cleanY ++ y')%string)
    /\ artist m = JS.trim cleanX /\ title m = JS.trim cleanY /\ album m = None.
Proof.
  intros [H|[H|H]].
  - unfold getSpotifyMusicWindows in H.
    destruct r as [|stdout]; [discriminate|].
    destruct (negb _); [discriminate|].
    unfold artistTitle in H.
    destruct (JS.at_ _ 0) as [a|] eqn:Ea; [|discriminate].
    destruct (JS.at_ _ 1) as [t|] eqn:Et;
      [|simpl in H; rewrite andb_false_r in H; discriminate].
    destruct (_ && _); [|discriminate].
    injection H as <-.
    exists (JS.trim stdout), 0, 1, a, t, a, t. simpl.
    repeat split; try assumption; exists ""; now rewrite append_empty_r.
  - unfold getLinuxMusic in H.
    destruct r as [|stdout]; [discriminate|].
    unfold artistTitle in H.
    destruct (JS.at_ _ 0) as [a|] eqn:Ea; [|discriminate].
    destruct (JS.at_ _ 1) as [t|] eqn:Et;
      [|simpl in H; rewrite andb_false_r in H; discriminate].
    destruct (_ && _); [|discriminate].
    injection H as <-.
    exists (JS.trim stdout), 0, 1, a, t,
      (beforeComma a), (JS.replaceTrailingHyphen t). simpl.
    repeat split; try assumption.
    + apply beforeComma_prefix.
    + apply replaceTrailingHyphen_prefix.
  - unfold getMacOSMusic in H.
    destruct r as [|stdout]; [discriminate|].
    destruct (2 <=? _)%nat eqn:L; [|discriminate].
    injection H as <-.
    destruct (JS.split " - " (JS.trim stdout)) as [|p [|q ps]] eqn:E;
      [discriminate|discriminate|].
    exists (JS.trim stdout), 1, 0, q, p, q, p. rewrite E. simpl.
    repeat split; exists ""; now rewrite append_empty_r.
Qed.

(** X9: every record an adapter resolves with has its artist and its title
    trimmed (trimming them again changes nothing) and carries no album. *)
Theorem adapters_fields_trimmed (r : ExecResult) (m : MusicInfo)
  (Hres : getSpotifyMusicWindows r = Resolved (Some m)
          \/ getLinuxMusic r = Resolved (Some m)
          \/ getMacOSMusic r = Resolved (Some m)) :
  trimmed (artist m) /\ trimmed (title m) /\ album m = None.
Proof.
  destruct (adapter_record_shape r m Hres)
    as (output & i & j & x & y & cx & cy & _ & _ & _ & _ & -> & -> & Hal).
  split; [apply trim_trimmed|]. split; [apply trim_trimmed|exact Hal].
Qed.

Lemma adapters_fields_trimmed_witness :
  trimmed "Daft Punk" /\ trimmed "One More Time".
Proof.
  destruct (adapters_fields_trimmed
              (ExecOk "  Daft Punk , Pharrell - One More Time -  ")
              (mkMusicInfo "Daft Punk" "One More Time" None)) as [H1 [H2 _]].
  - right. left. reflexivity.
  - split; [exact H1|exact H2].
Defined.

(** X10: since the output is cut at every separator, no record an adapter
    resolves with contains [" - "] in its artist or in its title; and the
    artist of the Linux adapter contains no comma. *)
Theorem adapters_fields_free_of_separator (r : ExecResult) (m : MusicInfo)
  (Hres : getSpotifyMusicWindows r = Resolved (Some m)
          \/ getLinuxMusic r = Resolved (Some m)
          \/ getMacOSMusic r = Resolved (Some m)) :
  occurs " - " (artist m) = false
  /\ occurs " - " (title m) = false
  /\ (getLinuxMusic r = Resolved (Some m) -> occurs "," (artist m) = false).
Proof.
  destruct (adapter_record_shape r m Hres)
    as (output & i & j & x & y & cx & cy & Hx & Hy & [x' Ex] & [y' Ey]
        & Ha & Ht & _).
  apply (at_split_free " - " output x i eq_refl) in Hx.
  apply (at_split_free " - " output y j eq_refl) in Hy.
  rewrite Ex in Hx. rewrite Ey in Hy.
  apply (occurs_app_l " - " _ _ eq_refl) in Hx.
  apply (occurs_app_l " - " _ _ eq_refl) in Hy.
  split; [rewrite Ha; now apply occurs_trim|].
  split; [rewrite Ht; now apply occurs_trim|].
  intro H. unfold getLinuxMusic in H.
  destruct r as [|stdout]; [discriminate|].
  destruct (artistTitle _) as [a t].
  destruct (_ && _); [|discriminate].
  injection H as <-. simpl.
  apply occurs_trim; [reflexivity|apply beforeComma_free].
Qed.

Lemma adapters_fields_free_of_separator_witness :
  occurs " - " "B" = false /\ occurs "," "A" = false.
Proof.
  destruct (adapters_fields_free_of_separator
              (ExecOk "A, X - B - C") (mkMusicInfo "A" "B" None))
    as [_ [H1 H2]].
  - right. left. reflexivity.
  - split; [exact H1|apply H2; reflexivity].
Defined.

(** X11: the two CLI adapters accept exactly the same outputs: the Linux
    adapter resolves with a record if and only if the Windows adapter does;
    they differ in how they fail and in the cleaning of the fields. *)
Theorem cli_adapters_accept_same (r : ExecResult) :
  (exists m, getLinuxMusic r = Resolved (Some m))
  <-> (exists m, getSpotifyMusicWindows r = Resolved (Some m)).
Proof.
  destruct r as [|stdout]; [split; intros [m H]; discriminate|].
  unfold getLinuxMusic, getSpotifyMusicWindows.
  destruct (JS.trim stdout) as [|c output] eqn:E.
  - split; intros [m H]; discriminate.
  - cbn [JS.nonEmpty negb].
    destruct (artistTitle _) as [a t].
    destruct (_ && _); split; intros [m H]; try discriminate; now eexists.
Qed.

(** X12: wherever the Windows CLI adapter finds a track, the browser
    adapter, given the same text, finds the same two strings with the roles
    swapped. *)
Theorem browser_swaps_cli (stdout : string) (m : MusicInfo)
  (Hcli : getSpotifyMusicWindows (ExecOk stdout) = Resolved (Some m)) :
  getMacOSMusic (ExecOk stdout)
  = Resolved (Some {| artist := title m; title := artist m; album := None |}).
Proof.
  unfold getSpotifyMusicWindows in Hcli. unfold getMacOSMusic.
  destruct (negb _); [discriminate|].
  unfold artistTitle in Hcli.
  destruct (JS.split " - " (JS.trim stdout)) as [|p [|q ps]];
    [discriminate| |].
  - simpl in Hcli. rewrite andb_false_r in Hcli. discriminate.
  - simpl in *. destruct (_ && _); [|discriminate].
    now injection Hcli as <-.
Qed.

Lemma browser_swaps_cli_witness :
  getMacOSMusic (ExecOk "Daft Punk - One More Time")
  = Resolved (Some (mkMusicInfo "One More Time" "Daft Punk" None)).
Proof.
  apply (browser_swaps_cli "Daft Punk - One More Time"
           (mkMusicInfo "Daft Punk" "One More Time" None)).
  reflexivity.
Defined.

(* ================================================================== *)
(** * Further properties of the server *)

Lemma getDeezerMusic_polls (env : Platform) (sv : Server) (m : DeezerMusicMonitor) :
  deezerMonitor sv = Some m
  \/ (deezerMonitor sv = None /\ constructOk env = true
      /\ m = start (initOk env) newMonitor) ->
  getDeezerMusic env sv
  = (Resolved (fst (getCurrentMusic (initOk env) (sessions env) m)),
     {| deezerMonitor := Some (snd (getCurrentMusic (initOk env) (sessions env) m));
        spawned := spawned sv |}).
Proof.
  unfold getDeezerMusic.
  intros [H|(H & Hc & ->)]; rewrite H; [|rewrite Hc];
    now destruct (getCurrentMusic _ _ _).
Qed.

(** X13: a media object on the first session keeps the Windows fallback
    away from [playerctl].  Whenever the global monitor exists or can be
    constructed and the first session has a media object, [getWindowsMusic]
    resolves with the record of that object and launches nothing, even when
    its artist, title and album are all empty. *)
Theorem getWindowsMusic_media_masks_fallback
  (env : Platform) (sv : Server) (s : Session.t) (rest : list Session.t)
  (media : Media.t)
  (Hmon : deezerMonitor sv <> None \/ constructOk env = true)
  (Hss : sessions env = s :: rest)
  (Hmedia : Session.media s = Some media) :
  fst (getWindowsMusic env sv) = Resolved (Some (fromMediaAlbumTitle media))
  /\ spawned (snd (getWindowsMusic env sv)) = spawned sv.
Proof.
  assert (Hm : exists m,
            deezerMonitor sv = Some m
            \/ (deezerMonitor sv = None /\ constructOk env = true
                /\ m = start (initOk env) newMonitor)).
  { destruct (deezerMonitor sv) as [m|] eqn:E.
    - exists m. now left.
    - destruct Hmon as [H|H]; [contradiction|].
      exists (start (initOk env) newMonitor). now right. }
  destruct Hm as [m Hm].
  unfold getWindowsMusic. rewrite (getDeezerMusic_polls env sv m Hm), Hss.
  rewrite (getCurrentMusic_first_media _ s rest m media Hmedia).
  now split.
Qed.

Lemma getWindowsMusic_media_masks_fallback_witness :
  fst (getWindowsMusic
         (mkPlatform true false [mediaSession "" "" ""] (ExecOk "A - B"))
         (mkServer None []))
  = Resolved (Some (mkMusicInfo "" "" (Some ""))).
Proof.
  destruct (getWindowsMusic_media_masks_fallback
              (mkPlatform true false [mediaSession "" "" ""] (ExecOk "A - B"))
              (mkServer None []) (mediaSession "" "" "") []
              (Media.mk (Some "") (Some "") None (Some ""))) as [H _].
  - right. reflexivity.
  - reflexivity.
  - reflexivity.
  - exact H.
Defined.

(** X14: a stored track outlives its session in the fallback.  When the
    global monitor holds a track and the sessions are empty, or the first
    has no media object, [getWindowsMusic] resolves with the stored track
    and does not launch [playerctl]. *)
Theorem getWindowsMusic_serves_stored_track
  (env : Platform) (sv : Server) (m : DeezerMusicMonitor) (mi : MusicInfo)
  (Hmon : deezerMonitor sv = Some m)
  (Hcur : currentMusic m = Some mi)
  (Hss : findsNoMedia (sessions env)) :
  fst (getWindowsMusic env sv) = Resolved (Some mi)
  /\ spawned (snd (getWindowsMusic env sv)) = spawned sv.
Proof.
  unfold getWindowsMusic.
  rewrite (getDeezerMusic_polls env sv m (or_introl Hmon)).
  rewrite getCurrentMusic_returns_stored.
  assert (E : currentMusic (snd (getCurrentMusic (initOk env) (sessions env) m))
              = Some mi).
  { rewrite <- Hcur. apply getCurrentMusic_no_media.
    destruct Hss as [->|(s & rest & -> & Hs)]; [exact I|exact Hs]. }
  rewrite E. now split.
Qed.

Lemma getWindowsMusic_serves_stored_track_witness :
  fst (getWindowsMusic
         (mkPlatform true true [] (ExecOk "A - B"))
         (mkServer (Some (setCurrentMusic (Some (mkMusicInfo "C" "D" (Some "")))
                            (start true newMonitor))) []))
  = Resolved (Some (mkMusicInfo "C" "D" (Some ""))).
Proof.
  destruct (getWindowsMusic_serves_stored_track
              (mkPlatform true true [] (ExecOk "A - B"))
              (mkServer (Some (setCurrentMusic (Some (mkMusicInfo "C" "D" (Some "")))
                                 (start true newMonitor))) [])
              (setCurrentMusic (Some (mkMusicInfo "C" "D" (Some "")))
                 (start true newMonitor))
              (mkMusicInfo "C" "D" (Some ""))) as [H _].
  - reflexivity.
  - reflexivity.
  - left. reflexivity.
  - exact H.
Defined.

(** X15: [GET /deezer-music] never answers 500: it answers with the record
    of [getDeezerMusic] when there is one and with 404 "No music detected"
    otherwise, which includes a monitor that could not be constructed. *)
Theorem deezerMusicRoute_never_500 (env : Platform) (sv : Server) :
  (forall e, fst (deezerMusicRoute env sv) <> Failure 500 e)
  /\ (forall music,
        fst (getDeezerMusic env sv) = Resolved (Some music) <->
        fst (deezerMusicRoute env sv) = Json music)
  /\ (fst (getDeezerMusic env sv) = Resolved None <->
      fst (deezerMusicRoute env sv) = Failure 404 "No music detected")
  /\ (deezerMonitor sv = None -> constructOk env = false ->
      fst (deezerMusicRoute env sv) = Failure 404 "No music detected").
Proof.
  unfold deezerMusicRoute.
  assert (Hc : deezerMonitor sv = None -> constructOk env = false ->
               getDeezerMusic env sv = (Resolved None, sv)).
  { intros H1 H2. unfold getDeezerMusic. now rewrite H1, H2. }
  destruct (getDeezerMusic_resolves env sv) as [v Hv].
  destruct (getDeezerMusic env sv) as [r sv1]. simpl in Hv. subst r.
  destruct v as [music|]; simpl.
  - split; [discriminate|]. split; [intro m; split; intros [= ->]; reflexivity|].
    split; [split; discriminate|].
    intros H1 H2. specialize (Hc H1 H2). discriminate.
  - split; [discriminate|]. split; [intro m; split; discriminate|].
    split; [now split|]. reflexivity.
Qed.

Lemma deezerMusicRoute_never_500_witness :
  fst (deezerMusicRoute (mkPlatform false true [mediaSession "A" "T" ""] ExecError)
         (mkServer None []))
  = Failure 404 "No music detected".
Proof.
  destruct (deezerMusicRoute_never_500
              (mkPlatform false true [mediaSession "A" "T" ""] ExecError)
              (mkServer None [])) as [_ [_ [_ H]]].
  apply H; reflexivity.
Defined.

(** ** The global monitor across requests *)










(** ** The cover lookup *)

Lemma fetchCover_shape (web : Web) (tok : option string) (mi : MusicInfo) :
  match fst (fst (fetchCover web tok mi)) with
  | Resolved d =>
      NowPlayingData.artist d = artist mi
      /\ NowPlayingData.title d = title mi
      /\ exists items,
           searchResponse web = Resolved items
           /\ NowPlayingData.coverUrl d
              = match items with
                | (url :: _) :: _ => url
                | _ => ""
                end
  | Rejected e => e = errorFetchingData
  end.
Proof.
  unfold fetchCover.
  destruct (getSpotifyToken web tok) as [[[token|e] tok1] calls]; [|reflexivity].
  destruct (searchResponse web) as [[|[|url item] items]|e]; simpl;
    try reflexivity; repeat split; eexists; split; reflexivity.
Qed.

(** X17: [GET /now-playing-data] answers either with a body or with 500
    "Error fetching data", nothing else.  A body carries exactly the artist
    and title the platform adapter resolved with, and as cover the first
    image of the first search item, or the empty string when the search
    found no item.  When the adapter yields no record the answer is the 500
    and nothing is sent to the metadata service. *)
Theorem nowPlayingData_response
  (platform : string) (env : Platform) (web : Web) (sv : Server)
  (spotifyToken : option string) :
  let out := nowPlayingDataRoute platform env web sv spotifyToken in
  let resp := fst (fst (fst out)) in
  ((exists d, resp = Json d) \/ resp = Failure 500 errorFetchingData)
  /\ (forall d, resp = Json d ->
        exists mi items,
          fst (platformMusic platform env sv) = Resolved (Some mi)
          /\ searchResponse web = Resolved items
          /\ d = NowPlayingData.mk (artist mi) (title mi)
                   match items with
                   | (url :: _) :: _ => url
                   | _ => ""
                   end)
  /\ ((forall mi, fst (platformMusic platform env sv) <> Resolved (Some mi)) ->
      resp = Failure 500 errorFetchingData /\ snd out = []).
Proof.
  intros out resp. subst out resp.
  unfold nowPlayingDataRoute, getNowPlaying.
  destruct (platformMusic platform env sv) as [[[mi|]|e] sv1]; simpl.
  - pose proof (fetchCover_shape web spotifyToken mi) as Hs.
    destruct (fetchCover web spotifyToken mi) as [[[d|e] tok1] calls]; simpl in *.
    + split; [left; now exists d|].
      split.
      * intros d' [= <-]. destruct Hs as (Ha & Ht & items & Hi & Hc).
        exists mi, items. split; [reflexivity|]. split; [exact Hi|].
        destruct d; simpl in *. now subst.
      * intro H. now destruct (H mi).
    + split; [now right|]. split; [discriminate|].
      intro H. now destruct (H mi).
  - split; [now right|]. split; [discriminate|]. now intros _.
  - split; [now right|]. split; [discriminate|]. now intros _.
Qed.

Lemma nowPlayingData_response_witness :
  fst (fst (fst (nowPlayingDataRoute "linux"
                   (mkPlatform true true [] (ExecOk "   "))
                   (mkWeb (Some "id") (Some "secret") (Resolved "tok") (Resolved []))
                   (mkServer None []) None)))
  = Failure 500 errorFetchingData.
Proof.
  destruct (nowPlayingData_response "linux"
              (mkPlatform true true [] (ExecOk "   "))
              (mkWeb (Some "id") (Some "secret") (Resolved "tok") (Resolved []))
              (mkServer None []) None) as [_ [_ H]].
  apply H. intros mi. discriminate.
Defined.

Lemma getSpotifyToken_cached (web : Web) (tok : option string) :
  JS.truthy tok = true ->
  getSpotifyToken web tok = (Resolved (JS.orEmpty tok), tok, []).
Proof. intro H. unfold getSpotifyToken. now rewrite H. Qed.

Lemma getNowPlaying_cached (platform : string) (env : Platform) (web : Web)
  (sv : Server) (tok : option string) :
  JS.truthy tok = true ->
  snd (fst (getNowPlaying platform env web sv tok)) = tok
  /\ ~ In PostToken (snd (getNowPlaying platform env web sv tok)).
Proof.
  intro H. unfold getNowPlaying.
  destruct (platformMusic platform env sv) as [[[mi|]|e] sv1]; simpl;
    try (split; [reflexivity|tauto]).
  unfold fetchCover. rewrite (getSpotifyToken_cached web tok H).
  destruct (searchResponse web) as [[|[|url item] items]|e]; simpl;
    (split; [reflexivity|intros [F|[]]; discriminate F]).
Qed.

(** X18: a cached token is kept for good.  Once [spotifyToken] holds a
    non-empty token, no request of any kind replaces it, [getNowPlaying]
    never asks the token endpoint again, and its result no longer depends on
    the credentials or on what the token endpoint would answer. *)
Theorem token_cached_for_good (spotifyToken : option string)
  (Hcached : JS.truthy spotifyToken = true) :
  (forall qs sv, snd (serveAll qs (sv, spotifyToken)) = spotifyToken)
  /\ (forall platform env web sv,
        ~ In PostToken (snd (getNowPlaying platform env web sv spotifyToken)))
  /\ (forall platform env web web' sv,
        searchResponse web = searchResponse web' ->
        fst (fst (fst (getNowPlaying platform env web sv spotifyToken)))
        = fst (fst (fst (getNowPlaying platform env web' sv spotifyToken)))).
Proof.
  split.
  { intros qs. induction qs as [|[req env] qs IH]; intro sv; [reflexivity|].
    unfold serveAll in *. simpl.
    destruct req as [session| |platform|platform web]; try apply IH.
    { destruct (deezerMonitor sv); apply IH. }
    unfold nowPlayingDataRoute.
    pose proof (getNowPlaying_cached platform env web sv spotifyToken Hcached)
      as [Ht _].
    destruct (getNowPlaying platform env web sv spotifyToken)
      as [[[r sv1] tok1] calls].
    simpl in Ht. subst tok1. destruct r; apply IH. }
  split.
  { intros. now apply getNowPlaying_cached. }
  intros platform env web web' sv Hs. unfold getNowPlaying.
  destruct (platformMusic platform env sv) as [[[mi|]|e] sv1]; try reflexivity.
  unfold fetchCover.
  rewrite !(getSpotifyToken_cached _ spotifyToken Hcached), Hs.
  now destruct (searchResponse web') as [[|[|url item] items]|e].
Qed.

Lemma token_cached_for_good_witness :
  snd (serveAll
         [(GetNowPlayingData "linux" (mkWeb None None (Resolved "new") (Resolved [])),
           mkPlatform true true [] (ExecOk "A - B"))]
         (mkServer None [], Some "old"))
  = Some "old".
Proof.
  destruct (token_cached_for_good (Some "old") eq_refl) as [H _].
  apply H.
Defined.

(** X19: with no token cached and a credential missing or empty,
    [getNowPlaying] sends nothing to the metadata service, neither a token
    request nor a search, leaves the token variable as it was, and never
    resolves: a track that was found is answered with "Error fetching
    data". *)
Theorem getNowPlaying_without_credentials
  (platform : string) (env : Platform) (web : Web) (sv : Server)
  (spotifyToken : option string)
  (Htoken : JS.truthy spotifyToken = false)
  (Hcred : JS.truthy (clientId web) = false \/ JS.truthy (clientSecret web) = false) :
  snd (getNowPlaying platform env web sv spotifyToken) = []
  /\ snd (fst (getNowPlaying platform env web sv spotifyToken)) = spotifyToken
  /\ (forall d, fst (fst (fst (getNowPlaying platform env web sv spotifyToken)))
                <> Resolved d)
  /\ (forall mi,
        fst (platformMusic platform env sv) = Resolved (Some mi) ->
        fst (fst (fst (getNowPlaying platform env web sv spotifyToken)))
        = Rejected errorFetchingData).
Proof.
  assert (Hg : getSpotifyToken web spotifyToken
               = (Rejected credentialsNotSet, spotifyToken, [])).
  { unfold getSpotifyToken. rewrite Htoken.
    destruct Hcred as [H|H]; rewrite H; simpl; [reflexivity|].
    now rewrite orb_true_r. }
  unfold getNowPlaying.
  destruct (platformMusic platform env sv) as [[[mi|]|e] sv1]; simpl.
  - unfold fetchCover. rewrite Hg. simpl.
    split; [reflexivity|]. split; [reflexivity|].
    split; [discriminate|]. now intros mi' _.
  - split; [reflexivity|]. split; [reflexivity|].
    split; discriminate.
  - split; [reflexivity|]. split; [reflexivity|].
    split; discriminate.
Qed.

Lemma getNowPlaying_without_credentials_witness :
  fst (fst (fst (getNowPlaying "linux"
                   (mkPlatform true true [] (ExecOk "A - B"))
                   (mkWeb (Some "id") (Some "") (Resolved "tok") (Resolved []))
                   (mkServer None []) None)))
  = Rejected errorFetchingData.
Proof.
  destruct (getNowPlaying_without_credentials "linux"
              (mkPlatform true true [] (ExecOk "A - B"))
              (mkWeb (Some "id") (Some "") (Resolved "tok") (Resolved []))
              (mkServer None []) None) as [_ [_ [_ H]]].
  - reflexivity.
  - right. reflexivity.
  - apply (H (mkMusicInfo "A" "B" None)). reflexivity.
Defined.

(* ================================================================== *)
(** * The two paths of the monitor, side by side *)

(** X20: polling right after an event.  For a snapshot with a media object,
    [getCurrentMusic] returns what the event just stored exactly when the
    media properties [album] and [albumTitle] default to the same string;
    otherwise the poll replaces the stored album by [albumTitle]. *)
Theorem poll_after_event_agrees_iff
  (ok : bool) (s : Session.t) (rest : list Session.t)
  (st : DeezerMusicMonitor) (media : Media.t)
  (Hmedia : Session.media s = Some media) :
  (fst (getCurrentMusic ok (s :: rest) (extractMusicInfo s st))
   = currentMusic (extractMusicInfo s st)
   <-> JS.orEmpty (Media.album media) = JS.orEmpty (Media.albumTitle media))
  /\ option_map album (fst (getCurrentMusic ok (s :: rest) (extractMusicInfo s st)))
     = Some (Some (JS.orEmpty (Media.albumTitle media)))
  /\ option_map album (currentMusic (extractMusicInfo s st))
     = Some (Some (JS.orEmpty (Media.album media))).
Proof.
  rewrite (getCurrentMusic_first_media ok s rest _ media Hmedia).
  rewrite (extractMusicInfo_media_stored s st media Hmedia).
  split; [|now split].
  unfold fromMediaAlbumTitle, fromMedia. split.
  - intros [= H]. now symmetry.
  - intros ->. reflexivity.
Qed.

Lemma poll_after_event_agrees_iff_witness :
  option_map album
    (fst (getCurrentMusic true [mediaSession "A" "T" "X"]
            (extractMusicInfo (mediaSession "A" "T" "X") newMonitor)))
  = Some (Some "X")
  /\ option_map album
       (currentMusic (extractMusicInfo (mediaSession "A" "T" "X") newMonitor))
     = Some (Some "").
Proof.
  destruct (poll_after_event_agrees_iff true (mediaSession "A" "T" "X") []
              newMonitor (Media.mk (Some "A") (Some "T") None (Some "X")) eq_refl)
    as [_ [H1 H2]].
  split; [exact H1|exact H2].
Defined.

(** X21: [GET /current-session] answers 500 only when there is no monitor
    and none can be constructed.  Otherwise its body carries the first
    session (or [null]), the platform name as given, and an [isPlaying] that
    is true only when a session is present; the request leaves the stored
    track of an existing monitor untouched. *)
Theorem currentSessionRoute_body
  (platform : string) (env : Platform) (sv : Server) :
  ((exists e, fst (currentSessionRoute platform env sv) = Failure 500 e)
   <-> deezerMonitor sv = None /\ constructOk env = false)
  /\ (forall body,
        fst (currentSessionRoute platform env sv) = Json body ->
        SessionInfo.session body = hd_error (sessions env)
        /\ SessionInfo.platform body = platform
        /\ (SessionInfo.isPlaying body = true -> SessionInfo.session body <> None))
  /\ (forall m,
        deezerMonitor sv = Some m ->
        option_map currentMusic (deezerMonitor (snd (currentSessionRoute platform env sv)))
        = Some (currentMusic m)).
Proof.
  unfold currentSessionRoute.
  destruct (deezerMonitor sv) as [m|] eqn:E.
  - pose proof (isMusicPlaying_no_session (initOk env)
                  (snd (getCurrentSession (initOk env) (sessions env) m)))
      as Hempty.
    pose proof (currentMusic_isMusicPlaying (initOk env) (sessions env)
                  (snd (getCurrentSession (initOk env) (sessions env) m)))
      as Hcm.
    unfold getCurrentSession in *.
    destruct (sessions env) as [|s rest];
      destruct (isMusicPlaying _ _ _) as [playing m2]; simpl in *.
    + split; [split; [intros [e H]; discriminate|intros [H _]; discriminate]|].
      split; [intros body [= <-]; simpl; repeat split; intro H; congruence|].
      intros m' [= <-]. rewrite Hcm.
      destruct (negb (isInitialized m)); simpl;
        now rewrite ?currentMusic_start.
    + split; [split; [intros [e H]; discriminate|intros [H _]; discriminate]|].
      split; [intros body [= <-]; simpl; repeat split; discriminate|].
      intros m' [= <-]. rewrite Hcm.
      destruct (negb (isInitialized m)); simpl;
        now rewrite ?currentMusic_start.
  - destruct (constructOk env).
    + pose proof (isMusicPlaying_no_session (initOk env)
                    (snd (getCurrentSession (initOk env) (sessions env)
                            (start (initOk env) newMonitor))))
        as Hempty.
      unfold getCurrentSession in *.
      destruct (sessions env) as [|s rest];
        destruct (isMusicPlaying _ _ _) as [playing m2]; simpl in *.
      * split; [split; [intros [e H]; discriminate|intros [_ H]; discriminate]|].
        split; [intros body [= <-]; simpl; repeat split; intro H; congruence|].
        discriminate.
      * split; [split; [intros [e H]; discriminate|intros [_ H]; discriminate]|].
        split; [intros body [= <-]; simpl; repeat split; discriminate|].
        discriminate.
    + simpl. split; [split; [now intros _|intros _; now eexists]|].
      split; discriminate.
Qed.

Lemma currentSessionRoute_body_witness :
  option_map currentMusic
    (deezerMonitor
       (snd (currentSessionRoute "win32"
               (mkPlatform true true [mediaSession "A" "T" "X"] ExecError)
               (mkServer (Some newMonitor) []))))
  = Some None.
Proof.
  destruct (currentSessionRoute_body "win32"
              (mkPlatform true true [mediaSession "A" "T" "X"] ExecError)
              (mkServer (Some newMonitor) [])) as [_ [_ H]].
  apply (H newMonitor). reflexivity.
Defined.

Lemma cli_adapters_accept_same_witness :
  exists m, getSpotifyMusicWindows (ExecOk "A, X - B -") = Resolved (Some m).
Proof.
  destruct (cli_adapters_accept_same (ExecOk "A, X - B -")) as [H _].
  apply H. exists (mkMusicInfo "A" "B" None). reflexivity.
Defined.
